(** * checksum-utils: the [check] and [create] engines

    A shallow embedding of [cmd/check.go] and [cmd/root.go] (package [cmd]
    of JuanOrbegoso/checksum-utils), together with the Go library
    functions they call, and the properties of the verification and
    creation classifiers and of the directory traversal.  The creation
    classifier of [cmd/create.go] is modelled from the specification. *)

From Stdlib Require Import ZArith Ascii String List Lia Bool DecimalString.
From Stdlib.Strings Require Import Byte.
From stdpp Require Import gmap strings list.

Import ListNotations.
#[local] Set Warnings "-register-all".
Local Open Scope string_scope.
Local Open Scope Z_scope.
Local Open Scope list_scope.

(** ** Bytes

    A Go [[]byte] is a [list byte]; a Go [string] is a [String.string]
    (both are sequences of 8-bit values, and the conversions between
    them copy the bytes). *)

Definition byte_to_Z (b : byte) : Z := Z.of_N (Byte.to_N b).

Definition byte_of_Z (z : Z) : byte :=
  byte_of_ascii (ascii_of_N (Z.to_N (z mod 256))).

Definition string_of_bytes (b : list byte) : string := string_of_list_byte b.
Definition bytes_of_string (s : string) : list byte := list_byte_of_string s.

(** ** crypto/sha512

    SHA-512 as in FIPS 180-4, on 64-bit words held in [Z] with the
    wrap-around written out. *)

Module sha512.

Definition w64 (x : Z) : Z := x mod 2 ^ 64.
Definition add64 (a b : Z) : Z := w64 (a + b).
Definition rotr (n x : Z) : Z :=
  w64 (Z.lor (Z.shiftr x n) (Z.shiftl x (64 - n))).
Definition not64 (x : Z) : Z := Z.lxor x (2 ^ 64 - 1).

Definition Ch (x y z : Z) : Z := Z.lxor (Z.land x y) (Z.land (not64 x) z).
Definition Maj (x y z : Z) : Z :=
  Z.lxor (Z.lxor (Z.land x y) (Z.land x z)) (Z.land y z).
Definition Sigma0 (x : Z) : Z :=
  Z.lxor (Z.lxor (rotr 28 x) (rotr 34 x)) (rotr 39 x).
Definition Sigma1 (x : Z) : Z :=
  Z.lxor (Z.lxor (rotr 14 x) (rotr 18 x)) (rotr 41 x).
Definition sigma0 (x : Z) : Z :=
  Z.lxor (Z.lxor (rotr 1 x) (rotr 8 x)) (Z.shiftr x 7).
Definition sigma1 (x : Z) : Z :=
  Z.lxor (Z.lxor (rotr 19 x) (rotr 61 x)) (Z.shiftr x 6).

Definition K : list Z :=
  [ 0x428a2f98d728ae22; 0x7137449123ef65cd; 0xb5c0fbcfec4d3b2f; 0xe9b5dba58189dbbc;
    0x3956c25bf348b538; 0x59f111f1b605d019; 0x923f82a4af194f9b; 0xab1c5ed5da6d8118;
    0xd807aa98a3030242; 0x12835b0145706fbe; 0x243185be4ee4b28c; 0x550c7dc3d5ffb4e2;
    0x72be5d74f27b896f; 0x80deb1fe3b1696b1; 0x9bdc06a725c71235; 0xc19bf174cf692694;
    0xe49b69c19ef14ad2; 0xefbe4786384f25e3; 0x0fc19dc68b8cd5b5; 0x240ca1cc77ac9c65;
    0x2de92c6f592b0275; 0x4a7484aa6ea6e483; 0x5cb0a9dcbd41fbd4; 0x76f988da831153b5;
    0x983e5152ee66dfab; 0xa831c66d2db43210; 0xb00327c898fb213f; 0xbf597fc7beef0ee4;
    0xc6e00bf33da88fc2; 0xd5a79147930aa725; 0x06ca6351e003826f; 0x142929670a0e6e70;
    0x27b70a8546d22ffc; 0x2e1b21385c26c926; 0x4d2c6dfc5ac42aed; 0x53380d139d95b3df;
    0x650a73548baf63de; 0x766a0abb3c77b2a8; 0x81c2c92e47edaee6; 0x92722c851482353b;
    0xa2bfe8a14cf10364; 0xa81a664bbc423001; 0xc24b8b70d0f89791; 0xc76c51a30654be30;
    0xd192e819d6ef5218; 0xd69906245565a910; 0xf40e35855771202a; 0x106aa07032bbd1b8;
    0x19a4c116b8d2d0c8; 0x1e376c085141ab53; 0x2748774cdf8eeb99; 0x34b0bcb5e19b48a8;
    0x391c0cb3c5c95a63; 0x4ed8aa4ae3418acb; 0x5b9cca4f7763e373; 0x682e6ff3d6b2b8a3;
    0x748f82ee5defb2fc; 0x78a5636f43172f60; 0x84c87814a1f0ab72; 0x8cc702081a6439ec;
    0x90befffa23631e28; 0xa4506cebde82bde9; 0xbef9a3f7b2c67915; 0xc67178f2e372532b;
    0xca273eceea26619c; 0xd186b8c721c0c207; 0xeada7dd6cde0eb1e; 0xf57d4f7fee6ed178;
    0x06f067aa72176fba; 0x0a637dc5a2c898a6; 0x113f9804bef90dae; 0x1b710b35131c471b;
    0x28db77f523047d84; 0x32caab7b40c72493; 0x3c9ebe0a15c9bebc; 0x431d67c49c100d4c;
    0x4cc5d4becb3e42b6; 0x597f299cfc657e2a; 0x5fcb6fab3ad6faec; 0x6c44198c4a475817 ].

(** The eight working variables / chaining values. *)
Record digest := Digest { h0 : Z; h1 : Z; h2 : Z; h3 : Z; h4 : Z; h5 : Z; h6 : Z; h7 : Z }.

Definition init : digest :=
  Digest 0x6a09e667f3bcc908 0xbb67ae8584caa73b 0x3c6ef372fe94f82b 0xa54ff53a5f1d36f1
         0x510e527fade682d1 0x9b05688c2b3e6c1f 0x1f83d9abfb41bd6b 0x5be0cd19137e2179.

(** Padding: a 1 bit, zeros up to 112 mod 128, the bit length on 128 bits. *)
Definition be_bytes (n : nat) (x : Z) : list Z :=
  map (fun i => Z.shiftr x (8 * Z.of_nat i) mod 256) (rev (seq 0 n)).

Definition pad (msg : list Z) : list Z :=
  let len := Z.of_nat (length msg) in
  let k := (111 - len) mod 128 in
  msg ++ [0x80] ++ repeat 0 (Z.to_nat k) ++ be_bytes 16 (8 * len).

Definition be_word (bs : list Z) : Z :=
  fold_left (fun acc b => Z.lor (Z.shiftl acc 8) b) bs 0.

(** [n] consecutive groups of [size] elements. *)
Fixpoint chunks {A} (size n : nat) (l : list A) : list (list A) :=
  match n with
  | O => []
  | S n' => firstn size l :: chunks size n' (skipn size l)
  end.

Definition block_words (block : list Z) : list Z :=
  map be_word (chunks 8 16 block).

(** The message schedule, newest word first. *)
Fixpoint extend (n : nat) (rw : list Z) : list Z :=
  match n with
  | O => rw
  | S n' =>
      let w := add64 (add64 (sigma1 (nth 1 rw 0)) (nth 6 rw 0))
                     (add64 (sigma0 (nth 14 rw 0)) (nth 15 rw 0)) in
      extend n' (w :: rw)
  end.

Definition schedule (block : list Z) : list Z :=
  rev (extend 64 (rev (block_words block))).

Definition round (s : digest) (kw : Z * Z) : digest :=
  let '(Digest a b c d e f g h) := s in
  let t1 := add64 (add64 (add64 h (Sigma1 e)) (add64 (Ch e f g) (fst kw))) (snd kw) in
  let t2 := add64 (Sigma0 a) (Maj a b c) in
  Digest (add64 t1 t2) a b c (add64 d t1) e f g.

Definition compress (s : digest) (block : list Z) : digest :=
  let '(Digest a b c d e f g h) := fold_left round (combine K (schedule block)) s in
  Digest (add64 (h0 s) a) (add64 (h1 s) b) (add64 (h2 s) c) (add64 (h3 s) d)
         (add64 (h4 s) e) (add64 (h5 s) f) (add64 (h6 s) g) (add64 (h7 s) h).

Definition digest_bytes (s : digest) : list Z :=
  be_bytes 8 (h0 s) ++ be_bytes 8 (h1 s) ++ be_bytes 8 (h2 s) ++ be_bytes 8 (h3 s) ++
  be_bytes 8 (h4 s) ++ be_bytes 8 (h5 s) ++ be_bytes 8 (h6 s) ++ be_bytes 8 (h7 s).

(** [sha512.New()], the data written to it, then [Sum(nil)]. *)
Definition Sum512 (data : list byte) : list byte :=
  let padded := pad (map byte_to_Z data) in
  let blocks := chunks 128 (length padded / 128) padded in
  map byte_of_Z (digest_bytes (fold_left compress blocks init)).

End sha512.

(** ** encoding/hex *)

Module hex.

Definition hextable : string := "0123456789abcdef".

Definition digit (n : Z) : ascii :=
  match String.get (Z.to_nat n) hextable with
  | Some c => c
  | None => "0"%char
  end.

(** [EncodeToString]: two digits per byte, high nibble first. *)
Fixpoint EncodeToString (src : list byte) : string :=
  match src with
  | [] => EmptyString
  | v :: rest =>
      String (digit (Z.shiftr (byte_to_Z v) 4))
        (String (digit (Z.land (byte_to_Z v) 0x0f)) (EncodeToString rest))
  end.

End hex.

(** ** Errors

    The error values the program can meet: [*fs.PathError] and
    [*os.SyscallError] wrap an errno, [errors.New]/[fmt.Errorf] make a
    message, and [filepath.SkipDir]/[filepath.SkipAll] are the two
    sentinels [filepath.Walk] looks for.  A Go [error] that may be [nil]
    is an [option error]. *)

Inductive errno :=
  | ENOENT | EACCES | EPERM | EISDIR | ENOTDIR | EIO | EROFS | ENOSPC
  | ENAMETOOLONG.

Inductive error :=
  | PathError (op path : string) (e : errno)
  | SyscallError (call : string) (e : errno)
  | errorString (msg : string)
  | SkipDir
  | SkipAll.

Inductive result (A : Type) :=
  | Ok (a : A)
  | Err (e : error).
Arguments Ok {A} a.
Arguments Err {A} e.

Definition errno_of (err : error) : option errno :=
  match err with
  | PathError _ _ e | SyscallError _ e => Some e
  | _ => None
  end.

(** [os.IsPermission]: the underlying errno is EACCES or EPERM. *)
Definition os_IsPermission (err : error) : bool :=
  match errno_of err with
  | Some EACCES | Some EPERM => true
  | _ => false
  end.

(** [errors.Is(err, os.ErrNotExist)]: the underlying errno is ENOENT. *)
Definition errors_Is_ErrNotExist (err : error) : bool :=
  match errno_of err with
  | Some ENOENT => true
  | _ => false
  end.

Definition is_SkipDir (err : error) : bool :=
  match err with SkipDir => true | _ => false end.
Definition is_SkipAll (err : error) : bool :=
  match err with SkipAll => true | _ => false end.

(** ** The parts of the Go runtime taken as given

    [filepath.Abs] depends on the working directory of the process; the
    three [unicode_*] functions are the slow paths that [strings.EqualFold]
    and [strings.TrimSpace] jump to at the first non-ASCII byte. *)

Class GoRuntime := {
  filepath_Abs : string -> string + errno;
  unicode_EqualFold : string -> string -> bool;
  unicode_TrimSpace : string -> string;
  unicode_TrimRightSpace : string -> string
}.

(** ** strings, path/filepath *)

Definition code (c : ascii) : Z := Z.of_N (N_of_ascii c).

Definition RuneSelf : Z := 0x80.

(** The [asciiSpace] table of package strings: tab, newline, vertical tab,
    form feed, carriage return, space. *)
Definition asciiSpace (c : ascii) : bool :=
  match code c with
  | 9 | 10 | 11 | 12 | 13 | 32 => true
  | _ => false
  end.

(** First loop of [TrimSpace]: [inl rest] when it stopped on an ASCII
    non-space byte or ran out, [inr rest] when it met a non-ASCII byte. *)
Fixpoint trim_start (s : string) : string + string :=
  match s with
  | EmptyString => inl EmptyString
  | String c s' =>
      if RuneSelf <=? code c then inr s
      else if asciiSpace c then trim_start s'
      else inl s
  end.

(** Second loop, run on the bytes in reverse order. *)
Fixpoint trim_stop (r : list ascii) : list ascii + list ascii :=
  match r with
  | [] => inl []
  | c :: r' =>
      if RuneSelf <=? code c then inr r
      else if asciiSpace c then trim_stop r'
      else inl r
  end.

Definition unrev (r : list ascii) : string := string_of_list_ascii (rev r).

Section Strings.
Context `{GoRuntime}.

Definition strings_TrimSpace (s : string) : string :=
  match trim_start s with
  | inr rest => unicode_TrimSpace rest
  | inl rest =>
      match trim_stop (rev (list_ascii_of_string rest)) with
      | inr r => unicode_TrimRightSpace (unrev r)
      | inl r => unrev r
      end
  end.

(** [strings.EqualFold]: the ASCII loop, byte by byte. *)
Fixpoint strings_EqualFold (s t : string) : bool :=
  match s, t with
  | String sr s', String tr t' =>
      if RuneSelf <=? Z.lor (code sr) (code tr) then unicode_EqualFold s t
      else if code tr =? code sr then strings_EqualFold s' t'
      else
        let lo := Z.min (code sr) (code tr) in
        let hi := Z.max (code sr) (code tr) in
        if (65 <=? lo) && (lo <=? 90) && (hi =? lo + 32)
        then strings_EqualFold s' t'
        else false
  | EmptyString, EmptyString => true
  | _, _ => false
  end.

End Strings.

(** [filepath.Ext]: from the last dot of the last path element. *)
Fixpoint ext_scan (r : list ascii) (acc : list ascii) : string :=
  match r with
  | [] => EmptyString
  | c :: r' =>
      if Ascii.eqb c "/" then EmptyString
      else if Ascii.eqb c "." then string_of_list_ascii (c :: acc)
      else ext_scan r' (c :: acc)
  end.

Definition filepath_Ext (path : string) : string :=
  ext_scan (rev (list_ascii_of_string path)) [].

(** [filepath.Join(dir, name)] for a clean [dir] and a directory entry. *)
Definition filepath_Join (dir name : string) : string :=
  if String.eqb dir "/" then "/" +:+ name else dir +:+ "/" +:+ name.

(** ** The file system and the process state

    The operating system is an environment the program queries by path.
    Each path has at most one [inode]; besides its bytes, an inode says
    which of the calls on it fail and with which errno (a file with mode
    000 has [i_open_err = Some EACCES], a directory has
    [i_read_err = Some EISDIR], a failing disk has [i_read_err = Some EIO]).
    A path with no inode answers ENOENT to a lookup, unless [absent_err]
    gives it another errno: ENAMETOOLONG for a name over NAME_MAX, ENOTDIR
    below a parent that is a file, EACCES below a parent that cannot be
    searched.  [write_err] lists the paths that cannot be created or overwritten, and
    [listing] is what [Lstat] and the directory reads of one
    [filepath.Walk] report below a root.  [trace] records the calls made
    on files, oldest first. *)

Record inode := Inode {
  i_data : list byte;
  i_isdir : bool;
  i_stat_err : option errno;
  i_open_err : option errno;
  i_read_err : option errno
}.

Definition regular (data : list byte) : inode := Inode data false None None None.

(** What a walk finds at a path: an entry whose [Lstat] fails, a file
    (anything that is not a directory), a directory whose names cannot be
    read, or a directory with its entries in the order read. *)
Inductive wnode :=
  | WLstatErr (e : errno)
  | WFile
  | WDirErr (op : string) (e : errno)
  | WDir (entries : list (string * wnode)).

Inductive syscall :=
  | SysOpen (path : string)
  | SysClose (path : string)
  | SysStat (path : string)
  | SysRead (path : string)
  | SysReadFile (path : string)
  | SysWriteFile (path : string) (data : list byte).

Record World := MkWorld {
  files : gmap string inode;
  absent_err : gmap string errno;
  write_err : gmap string errno;
  listing : gmap string wnode;
  trace : list syscall
}.

Inductive ChecksumFileVerificationStatus :=
  | Match | NotMatch | NotFound | CheckingFailed | LockedVerification.

Record ChecksumFileVerificationResult := VerificationResult {
  Path : string;
  Status : ChecksumFileVerificationStatus;
  Error : option error
}.

(** Modelled from the spec: the creation outcome type of cmd/create.go,
    which is not among the sources; the four statuses are those of the
    specification's CreationOutcome, and the fields and status names are
    the ones cmd/create_test.go reads. *)
Inductive ChecksumFileCreationStatus :=
  | Created | Existing | Failed | LockedCreation.

Record ChecksumFileCreationResult := CreationResult {
  CPath : string;
  CStatus : ChecksumFileCreationStatus;
  CError : option error
}.

(** The package-level variables, and the world.  The two variables of
    the create command are declared in cmd/create.go; cmd/root.go reads
    them in its signal handler. *)
Record State := MkState {
  world : World;
  errorsCheckingChecksumFiles : list error;
  resultsCheckingChecksumFiles : list ChecksumFileVerificationResult;
  errorsCreatingChecksumFiles : list error;
  resultsCreatingChecksumFiles : list ChecksumFileCreationResult
}.

Definition set_world (w : World) (s : State) : State :=
  MkState w (errorsCheckingChecksumFiles s) (resultsCheckingChecksumFiles s)
          (errorsCreatingChecksumFiles s) (resultsCreatingChecksumFiles s).

(** A pointer to a package-level variable: how to load and store it. *)
Record ref (A : Type) := MkRef {
  load : State -> A;
  store : A -> State -> State
}.
Arguments load {A} r s.
Arguments store {A} r a s.

Definition ref_errorsChecking : ref (list error) :=
  MkRef _ errorsCheckingChecksumFiles
    (fun v s => MkState (world s) v (resultsCheckingChecksumFiles s)
                        (errorsCreatingChecksumFiles s) (resultsCreatingChecksumFiles s)).

Definition ref_resultsChecking : ref (list ChecksumFileVerificationResult) :=
  MkRef _ resultsCheckingChecksumFiles
    (fun v s => MkState (world s) (errorsCheckingChecksumFiles s) v
                        (errorsCreatingChecksumFiles s) (resultsCreatingChecksumFiles s)).

Definition ref_errorsCreating : ref (list error) :=
  MkRef _ errorsCreatingChecksumFiles
    (fun v s => MkState (world s) (errorsCheckingChecksumFiles s)
                        (resultsCheckingChecksumFiles s) v (resultsCreatingChecksumFiles s)).

Definition ref_resultsCreating : ref (list ChecksumFileCreationResult) :=
  MkRef _ resultsCreatingChecksumFiles
    (fun v s => MkState (world s) (errorsCheckingChecksumFiles s)
                        (resultsCheckingChecksumFiles s) (errorsCreatingChecksumFiles s) v).

(** ** The state monad of the program *)

Definition IO (A : Type) : Type := State -> A * State.

Definition ret {A} (a : A) : IO A := fun s => (a, s).

Definition bind {A B} (m : IO A) (k : A -> IO B) : IO B :=
  fun s => let (a, s') := m s in k a s'.

Notation "x <- m ;; k" := (bind m (fun x => k))
  (at level 100, m at next level, right associativity).
Notation "m ;;; k" := (bind m (fun _ => k))
  (at level 100, right associativity).

(** [*p = append( *p, x)] *)
Definition append_to {A} (p : ref (list A)) (x : A) : IO unit :=
  fun s => (tt, store p (load p s ++ [x]) s).

Definition assign {A} (p : ref A) (v : A) : IO unit :=
  fun s => (tt, store p v s).

Definition sys (c : syscall) : IO unit :=
  fun s =>
    let w := world s in
    (tt, set_world (MkWorld (files w) (absent_err w) (write_err w) (listing w) (trace w ++ [c])) s).

Definition get_world : IO World := fun s => (world s, s).

(** [defer c] around a body: [c] runs when the body returns. *)
Definition defer {A} (c : IO unit) (body : IO A) : IO A :=
  a <- body ;; c ;;; ret a.

(** ** os, io *)

Record FileInfo := { IsDir : bool }.

(** An open file: its name and the inode it was opened on. *)
Record File := { f_name : string; f_inode : inode }.

(** The errno of the lookup of a path that has no inode. *)
Definition lookup_errno (w : World) (name : string) : errno :=
  match absent_err w !! name with
  | Some e => e
  | None => ENOENT
  end.

(** What the calls answer in a given world. *)
Definition open_of (w : World) (name : string) : result File :=
  match files w !! name with
  | None => Err (PathError "open" name (lookup_errno w name))
  | Some i =>
      match i_open_err i with
      | Some e => Err (PathError "open" name e)
      | None => Ok {| f_name := name; f_inode := i |}
      end
  end.

Definition stat_of (w : World) (name : string) : result FileInfo :=
  match files w !! name with
  | None => Err (PathError "stat" name (lookup_errno w name))
  | Some i =>
      match i_stat_err i with
      | Some e => Err (PathError "stat" name e)
      | None => Ok {| IsDir := i_isdir i |}
      end
  end.

Definition read_of (file : File) : result (list byte) :=
  match i_read_err (f_inode file) with
  | Some e => Err (PathError "read" (f_name file) e)
  | None => Ok (i_data (f_inode file))
  end.

Definition readfile_of (w : World) (name : string) : result (list byte) :=
  match open_of w name with
  | Err e => Err e
  | Ok file => read_of file
  end.

Definition os_Open (name : string) : IO (result File) :=
  sys (SysOpen name) ;;;
  w <- get_world ;;
  ret (open_of w name).

Definition File_Close (f : File) : IO unit := sys (SysClose (f_name f)).

Definition os_Stat (name : string) : IO (result FileInfo) :=
  sys (SysStat name) ;;;
  w <- get_world ;;
  ret (stat_of w name).

(** [h := sha512.New(); io.Copy(h, file)] followed by [h.Sum(nil)]: the
    file is read to its end and every byte goes through the hash; a
    failing read is the error of [io.Copy]. *)
Definition io_Copy_sha512 (file : File) : IO (result (list byte)) :=
  sys (SysRead (f_name file)) ;;;
  match read_of file with
  | Err e => ret (Err e)
  | Ok data => ret (Ok (sha512.Sum512 data))
  end.

(** [os.ReadFile]: open, read to the end, close. *)
Definition os_ReadFile (name : string) : IO (result (list byte)) :=
  sys (SysReadFile name) ;;;
  w <- get_world ;;
  ret (readfile_of w name).

(** [os.WriteFile(name, data, perm)]: creates or truncates [name]. *)
Definition os_WriteFile (name : string) (data : list byte) : IO (option error) :=
  sys (SysWriteFile name data) ;;;
  w <- get_world ;;
  match write_err w !! name with
  | Some e => ret (Some (PathError "open" name e))
  | None =>
      fun s =>
        (None, set_world (MkWorld (<[name := regular data]> (files w)) (absent_err w)
                                  (write_err w) (listing w) (trace w)) s)
  end.

(** ** cmd/check.go: the verification classifier

    Printing, the progress spinner and the elapsed time read nothing the
    outcome depends on and write nothing the program reads back; they are
    left out. *)

Section Engine.
Context `{GoRuntime}.

Definition checkChecksumFile (fileAbsolutePath : string)
  : IO ChecksumFileVerificationResult :=
  opened <- os_Open fileAbsolutePath ;;
  match opened with
  | Err err =>
      if os_IsPermission err
      then ret (VerificationResult fileAbsolutePath LockedVerification (Some err))
      else ret (VerificationResult fileAbsolutePath CheckingFailed (Some err))
  | Ok file =>
      defer (File_Close file) (
        st <- os_Stat (fileAbsolutePath +:+ ".sha512") ;;
        match st with
        | Err err =>
            if errors_Is_ErrNotExist err
            then ret (VerificationResult fileAbsolutePath NotFound None)
            else ret (VerificationResult fileAbsolutePath CheckingFailed (Some err))
        | Ok _ =>
            copied <- io_Copy_sha512 file ;;
            match copied with
            | Err err =>
                ret (VerificationResult fileAbsolutePath CheckingFailed (Some err))
            | Ok fileChecksum =>
                let hexFileChecksum := hex.EncodeToString fileChecksum in
                content <- os_ReadFile (fileAbsolutePath +:+ ".sha512") ;;
                match content with
                | Err err =>
                    ret (VerificationResult fileAbsolutePath CheckingFailed (Some err))
                | Ok checksumFileContentByteArray =>
                    let checksumFileContentString :=
                      strings_TrimSpace (string_of_bytes checksumFileContentByteArray) in
                    if strings_EqualFold hexFileChecksum checksumFileContentString
                    then ret (VerificationResult fileAbsolutePath Match None)
                    else ret (VerificationResult fileAbsolutePath NotMatch None)
                end
            end
        end)
  end.

Definition abs_result (path : string) : result string :=
  match filepath_Abs path with
  | inl p => Ok p
  | inr e => Err (SyscallError "getwd" e)
  end.

Definition handleChecksumFileVerification (filePath : string)
    (results : ref (list ChecksumFileVerificationResult)) : IO (option error) :=
  match abs_result filePath with
  | Err err => ret (Some err)
  | Ok fileAbsolutePath =>
      if String.eqb (filepath_Ext fileAbsolutePath) ".sha512" then ret None
      else
        result <- checkChecksumFile fileAbsolutePath ;;
        append_to results result ;;;
        ret None
  end.

(** ** cmd/create.go: the creation classifier *)

(** Modelled from the spec: [createChecksumFile] of cmd/create.go, which
    is not among the sources (only its tests, cmd/create_test.go, are).
    The steps are those of the creation algorithm of the specification:
    an existing sidecar gives [Existing] before the data file is touched;
    a permission failure on opening the data file gives [LockedCreation],
    any other open failure [Failed]; a failure while hashing gives
    [Failed]; the hex digest is written to the sidecar path, a write
    failure gives [Failed], success [Created].  A failure of the sidecar
    stat other than not-exist is a generic failure, [Failed]. *)
Definition createChecksumFile (fileAbsolutePath : string)
  : IO ChecksumFileCreationResult :=
  st <- os_Stat (fileAbsolutePath +:+ ".sha512") ;;
  match st with
  | Ok _ => ret (CreationResult fileAbsolutePath Existing None)
  | Err serr =>
      if negb (errors_Is_ErrNotExist serr)
      then ret (CreationResult fileAbsolutePath Failed (Some serr))
      else
        opened <- os_Open fileAbsolutePath ;;
        match opened with
        | Err err =>
            if os_IsPermission err
            then ret (CreationResult fileAbsolutePath LockedCreation (Some err))
            else ret (CreationResult fileAbsolutePath Failed (Some err))
        | Ok file =>
            defer (File_Close file) (
              copied <- io_Copy_sha512 file ;;
              match copied with
              | Err err => ret (CreationResult fileAbsolutePath Failed (Some err))
              | Ok fileChecksum =>
                  let hexFileChecksum := hex.EncodeToString fileChecksum in
                  werr <- os_WriteFile (fileAbsolutePath +:+ ".sha512")
                                       (bytes_of_string hexFileChecksum) ;;
                  match werr with
                  | Some err => ret (CreationResult fileAbsolutePath Failed (Some err))
                  | None => ret (CreationResult fileAbsolutePath Created None)
                  end
              end)
        end
  end.

(** Modelled from the spec: [handleChecksumFileCreation] of cmd/create.go,
    the handler the create command gives to [processPaths].  As the
    specification has it, sidecar files are not candidates and an
    outcome of one file never stops the others: the handler records the
    outcome and reports no error, as [handleChecksumFileVerification]
    does. *)
Definition handleChecksumFileCreation (filePath : string)
    (results : ref (list ChecksumFileCreationResult)) : IO (option error) :=
  match abs_result filePath with
  | Err err => ret (Some err)
  | Ok fileAbsolutePath =>
      if String.eqb (filepath_Ext fileAbsolutePath) ".sha512" then ret None
      else
        result <- createChecksumFile fileAbsolutePath ;;
        append_to results result ;;;
        ret None
  end.


(** ** path/filepath: Walk *)

Definition WalkFunc : Type :=
  string -> option FileInfo -> option error -> IO (option error).

Definition dirInfo : FileInfo := {| IsDir := true |}.
Definition fileInfo : FileInfo := {| IsDir := false |}.

(** Whether [walk] returns the error [e] that came back from the entry
    [c]: always for a file, unless it is [SkipDir] otherwise. *)
Definition stops (c : wnode) (e : error) : bool :=
  match c with
  | WFile => true
  | _ => negb (is_SkipDir e)
  end.

(** [Lstat] of [path] followed by [walk]: the callback is called with the
    lstat error, or on the file, or on the directory (with the error of
    reading its names, if any) and then, if both are nil, on the entries
    in order. *)
Fixpoint walk (path : string) (n : wnode) (walkFn : WalkFunc) {struct n}
  : IO (option error) :=
  match n with
  | WLstatErr e => walkFn path None (Some (PathError "lstat" path e))
  | WFile => walkFn path (Some fileInfo) None
  | WDirErr op e => walkFn path (Some dirInfo) (Some (PathError op path e))
  | WDir entries =>
      err1 <- walkFn path (Some dirInfo) None ;;
      match err1 with
      | Some _ => ret err1
      | None =>
          (fix each (es : list (string * wnode)) : IO (option error) :=
             match es with
             | [] => ret None
             | (name, c) :: rest =>
                 err <- walk (filepath_Join path name) c walkFn ;;
                 match err with
                 | None => each rest
                 | Some e => if stops c e then ret (Some e) else each rest
                 end
             end) entries
      end
  end.

Definition filepath_Walk (root : string) (fn : WalkFunc) : IO (option error) :=
  w <- get_world ;;
  err <- match listing w !! root with
         | None => fn root None (Some (PathError "lstat" root ENOENT))
         | Some n => walk root n fn
         end ;;
  match err with
  | Some e => if is_SkipDir e || is_SkipAll e then ret None else ret (Some e)
  | None => ret None
  end.

(** ** cmd/check.go: the check command *)

(** The function literal given to [filepath.Walk] by the check command.
    [fileInfo] is nil only together with an error. *)
Definition checkCmd_walkFn : WalkFunc :=
  fun filePath fileInfo err =>
    match err with
    | Some e => append_to ref_errorsChecking e ;;; ret (Some e)
    | None =>
        match fileInfo with
        | Some info =>
            if IsDir info then ret None
            else handleChecksumFileVerification filePath ref_resultsChecking
        | None => ret None
        end
    end.

(** [Run] of [checkCmd], one iteration per argument.  The [return] on a
    failing [filepath.Abs] of a directory leaves the loop. *)
Fixpoint checkCmd_Run (args : list string) : IO unit :=
  match args with
  | [] => ret tt
  | path :: rest =>
      st <- os_Stat path ;;
      match st with
      | Err err => append_to ref_errorsChecking err ;;; checkCmd_Run rest
      | Ok argFileInfo =>
          assign ref_resultsChecking [] ;;;
          if IsDir argFileInfo then
            match abs_result path with
            | Err err => append_to ref_errorsChecking err
            | Ok directoryAbsolutePath =>
                werr <- filepath_Walk directoryAbsolutePath checkCmd_walkFn ;;
                match werr with
                | Some err => append_to ref_errorsChecking err
                | None => ret tt
                end ;;;
                checkCmd_Run rest
            end
          else
            match abs_result path with
            | Err err => append_to ref_errorsChecking err ;;; checkCmd_Run rest
            | Ok fileAbsolutePath =>
                if String.eqb (filepath_Ext fileAbsolutePath) ".sha512" then
                  append_to ref_errorsChecking
                    (errorString (fileAbsolutePath +:+ " is a checksum file.")) ;;;
                  checkCmd_Run rest
                else
                  handleChecksumFileVerification path ref_resultsChecking ;;;
                  checkCmd_Run rest
            end
      end
  end.

(** ** cmd/root.go: processPaths *)

Definition processPaths_walkFn (errorsList : ref (list error))
    (handler : string -> IO (option error)) : WalkFunc :=
  fun filePath fileInfo err =>
    match err with
    | Some e => append_to errorsList e ;;; ret (Some e)
    | None =>
        match fileInfo with
        | Some info => if IsDir info then ret None else handler filePath
        | None => ret None
        end
    end.

Fixpoint processPaths (paths : list string) (errorsList : ref (list error))
    (handler : string -> IO (option error)) : IO unit :=
  match paths with
  | [] => ret tt
  | path :: rest =>
      st <- os_Stat path ;;
      match st with
      | Err err => append_to errorsList err ;;; processPaths rest errorsList handler
      | Ok argFileInfo =>
          if IsDir argFileInfo then
            match abs_result path with
            | Err err =>
                append_to errorsList err ;;; processPaths rest errorsList handler
            | Ok directoryAbsolutePath =>
                werr <- filepath_Walk directoryAbsolutePath
                          (processPaths_walkFn errorsList handler) ;;
                match werr with
                | Some err => append_to errorsList err
                | None => ret tt
                end ;;;
                processPaths rest errorsList handler
            end
          else
            match abs_result path with
            | Err err =>
                append_to errorsList err ;;; processPaths rest errorsList handler
            | Ok fileAbsolutePath =>
                if String.eqb (filepath_Ext fileAbsolutePath) ".sha512" then
                  append_to errorsList
                    (errorString (fileAbsolutePath +:+ " is a checksum file.")) ;;;
                  processPaths rest errorsList handler
                else
                  herr <- handler path ;;
                  match herr with
                  | Some err => append_to errorsList err
                  | None => ret tt
                  end ;;;
                  processPaths rest errorsList handler
            end
      end
  end.

End Engine.

(** * Properties *)

(** ** Definitions used in the statements *)

Fixpoint all_chars (P : ascii -> bool) (s : string) : bool :=
  match s with
  | EmptyString => true
  | String c s' => P c && all_chars P s'
  end.

(** The digits [hex.EncodeToString] writes: 0-9 and lowercase a-f. *)
Definition is_lower_hex (c : ascii) : bool :=
  ((48 <=? code c) && (code c <=? 57)) || ((97 <=? code c) && (code c <=? 102)).

(** Lower case of an ASCII letter, and of a string byte by byte. *)
Definition ascii_lower (c : ascii) : ascii :=
  if (65 <=? code c) && (code c <=? 90)
  then ascii_of_N (Z.to_N (code c + 32))
  else c.

Fixpoint string_lower (s : string) : string :=
  match s with
  | EmptyString => EmptyString
  | String c s' => String (ascii_lower c) (string_lower s')
  end.

(** A runtime for absolute, clean paths and ASCII text: [filepath.Abs]
    returns such a path as it is, and the Unicode paths of package
    strings are never reached. *)
Definition plain_runtime : GoRuntime := {|
  filepath_Abs := fun p => inl p;
  unicode_EqualFold := fun _ _ => false;
  unicode_TrimSpace := fun s => s;
  unicode_TrimRightSpace := fun s => s
|}.

(** The state of a process that starts in the world [w]. *)
Definition initial (w : World) : State := MkState w [] [] [] [].

(** The state after the calls [cs] have been recorded. *)
Definition traced (cs : list syscall) (s : State) : State :=
  let w := world s in
  set_world (MkWorld (files w) (absent_err w) (write_err w) (listing w) (trace w ++ cs)) s.

(** The state after [name] has been written with [data]. *)
Definition written (name : string) (data : list byte) (s : State) : State :=
  let w := world s in
  set_world (MkWorld (<[name := regular data]> (files w)) (absent_err w)
                     (write_err w) (listing w) (trace w)) s.

(** The text of a sidecar made for a file content: the hex digest. *)
Definition sidecar_text (data : list byte) : string :=
  hex.EncodeToString (sha512.Sum512 data).

(** ** The calls of a walk in order

    One [visit] is one call of the walk function: the path, the file
    info (nil when [Lstat] failed) and the error handed to it. [visits]
    lists, in order, the calls [filepath.Walk] makes on a tree as long as
    each call returns nil. *)
Record visit := Visit {
  v_path : string;
  v_info : option FileInfo;
  v_err : option error
}.

Fixpoint visits (path : string) (n : wnode) : list visit :=
  match n with
  | WLstatErr e => [Visit path None (Some (PathError "lstat" path e))]
  | WFile => [Visit path (Some fileInfo) None]
  | WDirErr op e => [Visit path (Some dirInfo) (Some (PathError op path e))]
  | WDir entries =>
      Visit path (Some dirInfo) None ::
      (fix each (es : list (string * wnode)) : list visit :=
         match es with
         | [] => []
         | (name, c) :: rest => visits (filepath_Join path name) c ++ each rest
         end) entries
  end.

Definition root_visits (w : World) (root : string) : list visit :=
  match listing w !! root with
  | None => [Visit root None (Some (PathError "lstat" root ENOENT))]
  | Some n => visits root n
  end.

(** The calls made one after the other, up to the first that returns an
    error. *)
Fixpoint run_visits (fn : WalkFunc) (vs : list visit) : IO (option error) :=
  match vs with
  | [] => ret None
  | v :: rest =>
      err <- fn (v_path v) (v_info v) (v_err v) ;;
      match err with
      | Some e => ret (Some e)
      | None => run_visits fn rest
      end
  end.

(** [*p = append( *p, x)] as a state change. *)
Definition record_in {A} (p : ref (list A)) (x : A) (s : State) : State :=
  store p (load p s ++ [x]) s.

(** A pointer reads back what was stored through it. *)
Definition lawful {A} (p : ref A) : Prop :=
  forall v s, load p (store p v s) = v.

Section Candidates.
Context `{GoRuntime}.

(** A visit with no error, on a directory or on a file whose absolute
    path [filepath.Abs] can give. *)
Definition sound_visit (v : visit) : Prop :=
  v_err v = None /\
  match v_info v with
  | Some info => IsDir info = true \/ exists a, filepath_Abs (v_path v) = inl a
  | None => False
  end.

(** What a file whose absolute path is [a] adds to the candidates. *)
Definition file_candidate (a : string) : list string :=
  if String.eqb (filepath_Ext a) ".sha512" then [] else [a].

(** The absolute paths of the files among the visits that are not
    sidecars, in order: the candidates. *)
Fixpoint candidates (vs : list visit) : list string :=
  match vs with
  | [] => []
  | v :: rest =>
      match v_info v, filepath_Abs (v_path v) with
      | Some info, inl a =>
          if IsDir info || String.eqb (filepath_Ext a) ".sha512"
          then candidates rest
          else a :: candidates rest
      | _, _ => candidates rest
      end
  end.

End Candidates.

(** The state in which the check command starts the walk of the
    directory argument [path]: after the stat of the argument and the
    reset of the results. *)
Definition check_walk_start (path : string) (s : State) : State :=
  store ref_resultsChecking [] (traced [SysStat path] s).

(** The creation handler as the create command hands it to
    [processPaths]. *)
Definition creation_handler `{GoRuntime} (p : string) : IO (option error) :=
  handleChecksumFileCreation p ref_resultsCreating.

(** ** The statements the code is confronted with *)

Section Statements.
Context `{GoRuntime}.

(** Every candidate of the tree below [path] that is not inside a failed
    subtree has an outcome once the check command has processed [path]. *)
Definition siblings_walked (s : State) (path : string) : Prop :=
  forall a,
    In a (candidates (root_visits (world s) path)) ->
    In a (map Path (resultsCheckingChecksumFiles (snd (checkCmd_Run [path] s)))).

(** A data file that opens and reads and whose sidecar exists is judged
    by the comparison alone. *)
Definition sidecar_decides (s : State) (p : string) : Prop :=
  forall file data si info,
    open_of (world s) p = Ok file ->
    read_of file = Ok data ->
    files (world s) !! (p +:+ ".sha512") = Some si ->
    stat_of (world s) (p +:+ ".sha512") = Ok info ->
    fst (checkChecksumFile p s)
    = VerificationResult p
        (if strings_EqualFold (hex.EncodeToString (sha512.Sum512 data))
                              (strings_TrimSpace (string_of_bytes (i_data si)))
         then Match else NotMatch)
        None.

(** Any file with no sidecar is [NotFound]. *)
Definition absent_sidecar_not_found (s : State) (p : string) : Prop :=
  forall i,
    files (world s) !! p = Some i ->
    files (world s) !! (p +:+ ".sha512") = None ->
    fst (checkChecksumFile p s) = VerificationResult p NotFound None.

(** For a data file with no sidecar, whatever its content, [verify]
    after [create] is [Match]. *)
Definition round_trip (s : State) (p : string) : Prop :=
  forall i,
    files (world s) !! p = Some i ->
    files (world s) !! (p +:+ ".sha512") = None ->
    fst (checkChecksumFile p (snd (createChecksumFile p s)))
    = VerificationResult p Match None.

(** Any file that opens and reads and has no sidecar gets one. *)
Definition readable_gets_sidecar (s : State) (p : string) : Prop :=
  forall file data,
    open_of (world s) p = Ok file ->
    read_of file = Ok data ->
    files (world s) !! (p +:+ ".sha512") = None ->
    fst (createChecksumFile p s) = CreationResult p Created None
    /\ readfile_of (world (snd (createChecksumFile p s))) (p +:+ ".sha512")
       = Ok (bytes_of_string (hex.EncodeToString (sha512.Sum512 data))).

End Statements.

(** ** Worlds to run the program in *)

Definition hello : list byte := bytes_of_string "hello".

Definition hello_digest_upper : string :=
  "9B71D224BD62F3785D96D46AD3EA3D73319BFBC2890CAADAE2DFF72519673CA72323C3D99BA5C11D7C7ACC6E14B8C5DA0C4663475C2E5C3ADEF46F73BCDEC043".

Definition newline : string := String "010"%char EmptyString.

(** A file of mode 000. *)
Definition unreadable (data : list byte) : inode :=
  Inode data false None (Some EACCES) None.

Definition directory : inode := Inode [] true None None (Some EISDIR).

Definition world_of (fs : list (string * inode)) : World :=
  MkWorld (list_to_map fs) ∅ ∅ ∅ [].

(** One data file, no sidecar. *)
Definition w_plain : World :=
  world_of [("/data/hello.txt", regular hello)].

(** One data file of mode 000, no sidecar. *)
Definition w_locked : World :=
  world_of [("/data/locked.txt", unreadable (bytes_of_string "secret"))].

(** A data file and its digest in capitals, followed by a newline. *)
Definition w_upper : World :=
  world_of [("/data/hello.txt", regular hello);
            ("/data/hello.txt.sha512",
             regular (bytes_of_string (hello_digest_upper +:+ newline)))].

(** A data file and a sidecar of mode 000. *)
Definition w_sidecar_locked : World :=
  world_of [("/data/hello.txt", regular hello);
            ("/data/hello.txt.sha512",
             unreadable (bytes_of_string hello_digest_upper))].

(** A data file of mode 000 beside a sidecar, as in
    TestCreateChecksumFile_ExistingChecksumUnreadableDataFile. *)
Definition w_existing : World :=
  world_of [("/data/data.txt", unreadable (bytes_of_string "data"));
            ("/data/data.txt.sha512", regular (bytes_of_string "existing"))].

(** A data file on a read-only file system. *)
Definition w_readonly : World :=
  MkWorld {[ "/data/hello.txt" := regular hello ]} ∅
          {[ "/data/hello.txt.sha512" := EROFS ]} ∅ [].

(** A data file whose name takes 250 bytes: with the suffix the sidecar
    name is over the 255 bytes of NAME_MAX, so its lookup answers
    ENAMETOOLONG. *)
Definition long_name : string :=
  "/data/" +:+ string_of_list_ascii (repeat "a"%char 250).

Definition w_long_name : World :=
  MkWorld {[ long_name := regular hello ]}
          {[ long_name +:+ ".sha512" := ENAMETOOLONG ]} ∅ ∅ [].

(** A directory with a file, an entry that cannot be lstat-ed and
    another file, in this order. *)
Definition w_broken_tree : World :=
  MkWorld (list_to_map [("/d", directory); ("/d/0.txt", regular hello);
                        ("/d/b.txt", regular hello)])
          ∅ ∅
          {[ "/d" := WDir [("0.txt", WFile); ("a", WLstatErr EACCES);
                           ("b.txt", WFile)] ]}
          [].


(** A directory with a file of mode 000, then a file with its sidecar. *)
Definition w_mixed_tree : World :=
  MkWorld (list_to_map [("/d", directory);
                        ("/d/locked.txt", unreadable (bytes_of_string "secret"));
                        ("/d/ok.txt", regular hello);
                        ("/d/ok.txt.sha512",
                         regular (bytes_of_string hello_digest_upper))])
          ∅ ∅
          {[ "/d" := WDir [("locked.txt", WFile); ("ok.txt", WFile);
                           ("ok.txt.sha512", WFile)] ]}
          [].

(** ** Induction on walk trees

    The principle that goes through the entries of a directory. *)

Section wnode_induction.
Variable P : wnode -> Prop.
Hypothesis HLstat : forall e, P (WLstatErr e).
Hypothesis HFile : P WFile.
Hypothesis HDirErr : forall op e, P (WDirErr op e).
Hypothesis HDir :
  forall entries, Forall (fun nc => P (snd nc)) entries -> P (WDir entries).

Fixpoint wnode_nested_ind (n : wnode) : P n :=
  match n with
  | WLstatErr e => HLstat e
  | WFile => HFile
  | WDirErr op e => HDirErr op e
  | WDir entries =>
      HDir entries
        ((fix all (es : list (string * wnode)) : Forall (fun nc => P (snd nc)) es :=
            match es with
            | [] => @List.Forall_nil _ (fun nc => P (snd nc))
            | (name, c) :: rest =>
                @List.Forall_cons _ (fun nc => P (snd nc)) (name, c) rest
                  (wnode_nested_ind c) (all rest)
            end) entries)
  end.
End wnode_induction.


(** * More of the code *)

(** ** What a run may and may not do to the world *)

Definition is_write (c : syscall) : bool :=
  match c with
  | SysWriteFile _ _ => true
  | _ => false
  end.

(** [s'] comes from [s] by calls that write nothing: same files, same
    write faults, same listings, and a trace grown by calls other than
    writes. *)
Definition reads_only (s s' : State) : Prop :=
  files (world s') = files (world s)
  /\ write_err (world s') = write_err (world s)
  /\ listing (world s') = listing (world s)
  /\ exists cs,
       trace (world s') = trace (world s) ++ cs
       /\ forallb (fun c => negb (is_write c)) cs = true.


(** A byte below [utf8.RuneSelf]. *)
Definition is_ascii (c : ascii) : bool := negb (RuneSelf <=? code c).

(** The errors of the stats of the arguments that cannot be stat-ed. *)
Definition stat_errors (w : World) (args : list string) : list error :=
  flat_map (fun p => match stat_of w p with
                     | Err e => [e]
                     | Ok _ => []
                     end) args.

(** A runtime whose working directory cannot be read: [filepath.Abs]
    succeeds on absolute paths only. *)
Definition lost_cwd_runtime : GoRuntime := {|
  filepath_Abs := fun p =>
    match p with
    | String "/" _ => inl p
    | _ => inr EACCES
    end;
  unicode_EqualFold := fun _ _ => false;
  unicode_TrimSpace := fun s => s;
  unicode_TrimRightSpace := fun s => s
|}.

(** A directory known by a relative name, and a file. *)
Definition w_relative : World :=
  MkWorld (list_to_map [("photos", directory); ("/data/hello.txt", regular hello)])
          ∅ ∅ ∅ [].

(** A handler that fails on every file. *)
Definition failing_handler (p : string) : IO (option error) :=
  ret (Some (errorString ("cannot handle " +:+ p))).

(** ** strings.HasSuffix *)

Fixpoint has_prefix_list (p l : list ascii) : bool :=
  match p, l with
  | [], _ => true
  | a :: p', b :: l' => Ascii.eqb a b && has_prefix_list p' l'
  | _ :: _, [] => false
  end.

(** [strings.HasSuffix(s, suffix)]: the last bytes of [s] are [suffix]. *)
Definition strings_HasSuffix (s suffix : string) : bool :=
  has_prefix_list (rev (list_ascii_of_string suffix)) (rev (list_ascii_of_string s)).

(** ** cmd/root.go: the progress bar *)

Definition progressBarWidth : Z := 10.

Fixpoint repeat_string (s : string) (n : nat) : string :=
  match n with
  | O => EmptyString
  | S k => s +:+ repeat_string s k
  end.

(** [strings.Repeat(s, count)], which panics on a negative count: [None]
    is the panic. *)
Definition strings_Repeat (s : string) (count : Z) : option string :=
  if count <? 0 then None else Some (repeat_string s (Z.to_nat count)).

Definition progressDoneBar : option string :=
  match strings_Repeat "=" progressBarWidth with
  | None => None
  | Some bar => Some ("[" +:+ bar +:+ "]")
  end.

Definition buildProgressFrame (position : Z) : option string :=
  if progressBarWidth <=? position then progressDoneBar
  else
    match strings_Repeat "=" position with
    | None => None
    | Some done =>
        match strings_Repeat " " (progressBarWidth - position - 1) with
        | None => None
        | Some todo => Some ("[" +:+ done +:+ ">" +:+ todo +:+ "]")
        end
    end.

Definition carriage_return : string := String "013"%char EmptyString.

(** What [clearProgressLine(prefix)] prints. *)
Definition clearProgressLine (prefix : string) : option string :=
  let barLen := progressBarWidth + 2 in
  match strings_Repeat " " barLen with
  | None => None
  | Some blank =>
      Some (carriage_return +:+ prefix +:+ blank +:+ carriage_return +:+ prefix)
  end.

(** The loop of [startProgress]: the value of [position] when the frame
    number [n] is printed, [position = (position + 1) % (progressBarWidth
    + 1)] after each frame. *)
Fixpoint spinner_position (n : nat) : Z :=
  match n with
  | O => 0
  | S k => Z.rem (spinner_position k + 1) (progressBarWidth + 1)
  end.

(** What the loop prints for the frame number [n]: [\r], the prefix, the
    frame. *)
Definition spinner_output (prefix : string) (n : nat) : option string :=
  match buildProgressFrame (spinner_position n) with
  | None => None
  | Some frame => Some (carriage_return +:+ prefix +:+ frame)
  end.

(** How many times the byte [c] occurs in [s]. *)
Fixpoint count_char (c : ascii) (s : string) : nat :=
  match s with
  | EmptyString => O
  | String x s' => (if Ascii.eqb x c then 1 else 0) + count_char c s'
  end.

(** ** cmd/root.go: formatDuration

    A [time.Duration] is a 64-bit count of nanoseconds. *)

Module Duration.

Definition Nanosecond : Z := 1.
Definition Millisecond : Z := 1000000.
Definition Second : Z := 1000000000.
Definition Minute : Z := 60 * Second.
Definition Hour : Z := 60 * Minute.
Definition minDuration : Z := - 2 ^ 63.
Definition maxDuration : Z := 2 ^ 63 - 1.

(** 64-bit signed wrap-around. *)
Definition int64 (x : Z) : Z := (x + 2 ^ 63) mod 2 ^ 64 - 2 ^ 63.

(** [lessThanHalf(x, y)]: [uint64(x)+uint64(x) < uint64(y)]. *)
Definition lessThanHalf (x y : Z) : bool :=
  ((x mod 2 ^ 64 + x mod 2 ^ 64) mod 2 ^ 64) <? (y mod 2 ^ 64).

(** [d.Round(m)]: to the nearest multiple of [m], halves away from zero,
    the extreme durations on overflow. *)
Definition Round (d m : Z) : Z :=
  if m <=? 0 then d
  else
    let r := Z.rem d m in
    if d <? 0 then
      let r := - r in
      if lessThanHalf r m then int64 (d + r)
      else
        let d1 := int64 (d - m + r) in
        if d1 <? d then d1 else minDuration
    else
      if lessThanHalf r m then int64 (d - r)
      else
        let d1 := int64 (d + m - r) in
        if d <? d1 then d1 else maxDuration.

(** [int64(d.Seconds())].  [Seconds] is the floating-point number
    [float64(d / Second) + float64(d % Second) / 1e9]; [formatDuration]
    takes it of a duration rounded to the second, where the second term
    is zero and the first is a whole number below 2^53, held exactly, so
    that the conversion back to [int64] gives [d / Second]. *)
Definition whole_Seconds (d : Z) : Z := Z.quot d Second.

(** [d.Milliseconds()] *)
Definition Milliseconds (d : Z) : Z := Z.quot d Millisecond.

End Duration.

(** The verb [%d] of [fmt.Sprintf] on an integer. *)
Definition fmt_d (n : Z) : string := NilZero.string_of_int (Z.to_int n).

Definition formatDuration (d : Z) : string :=
  let rounded := Duration.Round d Duration.Millisecond in
  if Duration.Hour <=? rounded then
    let totalSeconds := Duration.whole_Seconds (Duration.Round rounded Duration.Second) in
    let hours := Z.quot totalSeconds 3600 in
    let minutes := Z.quot (Z.rem totalSeconds 3600) 60 in
    let seconds := Z.rem totalSeconds 60 in
    fmt_d hours +:+ "h" +:+ fmt_d minutes +:+ "m" +:+ fmt_d seconds +:+ "s"
  else if Duration.Minute <=? rounded then
    let totalSeconds := Duration.whole_Seconds (Duration.Round rounded Duration.Second) in
    let minutes := Z.quot totalSeconds 60 in
    let seconds := Z.rem totalSeconds 60 in
    fmt_d minutes +:+ "m" +:+ fmt_d seconds +:+ "s"
  else if Duration.Second <=? rounded then
    let seconds := Duration.whole_Seconds (Duration.Round rounded Duration.Second) in
    fmt_d seconds +:+ "s"
  else
    fmt_d (Duration.Milliseconds rounded) +:+ "ms".

(** ** cmd/root.go: the arguments

    [filepath.Glob] reads the file system and [%q] quotes as
    [strconv.Quote] does; both are taken as given. *)

Class Shell := {
  filepath_Glob : string -> result (list string);
  strconv_Quote : string -> string
}.

(** [strings.ContainsAny(s, chars)] on ASCII [chars]. *)
Fixpoint strings_ContainsAny (s chars : string) : bool :=
  match s with
  | EmptyString => false
  | String c s' =>
      existsb (Ascii.eqb c) (list_ascii_of_string chars) || strings_ContainsAny s' chars
  end.

Definition hasGlobMeta (path : string) : bool := strings_ContainsAny path "*?[".

Section Arguments.
Context `{Shell} `{GoRuntime}.

(** The loop of [expandArgs], from the values [expanded], [errs] and
    [hadGlob] have before an iteration. *)
Fixpoint expandArgs_from (args : list string) (expanded : list string)
    (errs : list error) (hadGlob : bool) : list string * list error * bool :=
  match args with
  | [] => (expanded, errs, hadGlob)
  | arg :: rest =>
      if hasGlobMeta arg then
        match filepath_Glob arg with
        | Err err => expandArgs_from rest expanded (errs ++ [err]) true
        | Ok matches =>
            if (length matches =? 0)%nat then
              expandArgs_from rest expanded
                (errs ++ [errorString ("no matches for " +:+ strconv_Quote arg)]) true
            else expandArgs_from rest (expanded ++ matches) errs true
        end
      else expandArgs_from rest (expanded ++ [arg]) errs hadGlob
  end.

Definition expandArgs (args : list string) : list string * list error * bool :=
  expandArgs_from args [] [] false.

(** Standard input as [readPathsFromStdin] sees it: whether it is a
    terminal, the lines the scanner gives, and the error the scanner ends
    with. *)
Record Stdin := {
  isStdinTTY : bool;
  scanned : list string;
  scanner_Err : option error
}.

Fixpoint scan_from (texts : list string) (paths : list string) : list string :=
  match texts with
  | [] => paths
  | text :: rest =>
      let line := strings_TrimSpace text in
      if String.eqb line "" then scan_from rest paths
      else if strings_HasSuffix line ".sha512" then scan_from rest paths
      else scan_from rest (paths ++ [line])
  end.

Definition readPathsFromStdin (stdin : Stdin) : list string * option error :=
  if isStdinTTY stdin then ([], None)
  else (scan_from (scanned stdin) [], scanner_Err stdin).

Definition gatherPaths (args : list string) (stdin : Stdin)
  : list string * list error * bool :=
  let '(paths, errs, hadGlob) := expandArgs args in
  let '(paths, hadGlob, readErr) :=
    if (length args =? 0)%nat || negb (isStdinTTY stdin) then
      let '(stdinPaths, err) := readPathsFromStdin stdin in
      if (0 <? length stdinPaths)%nat
      then (paths ++ stdinPaths, true, err)
      else (paths, hadGlob, err)
    else (paths, hadGlob, None) in
  let errs := match readErr with
              | Some e => errs ++ [e]
              | None => errs
              end in
  (paths, errs, hadGlob).

(** A line the reader keeps, once trimmed. *)
Definition kept_line (line : string) : bool :=
  negb (String.eqb line "") && negb (strings_HasSuffix line ".sha512").

End Arguments.

(** A shell in which no pattern matches anything. *)
Definition empty_shell : Shell := {|
  filepath_Glob := fun _ => Ok [];
  strconv_Quote := fun s => String "034"%char s +:+ String "034"%char EmptyString
|}.

(** A shell with two text files: [*.txt] matches them, a lone opening bracket is the
    malformed pattern ([filepath.ErrBadPattern]) and every other pattern
    matches nothing. *)
Definition two_files_shell : Shell := {|
  filepath_Glob := fun pattern =>
    if String.eqb pattern "[" then Err (errorString "syntax error in pattern")
    else if String.eqb pattern "*.txt" then Ok ["a.txt"; "b.txt"]
    else Ok [];
  strconv_Quote := fun s => String "034"%char s +:+ String "034"%char EmptyString
|}.

(** ** cmd/check.go: the summary *)

(** The text of an error ([Error()]); the errno texts are those of
    Linux. *)
Definition errno_text (e : errno) : string :=
  match e with
  | ENOENT => "no such file or directory"
  | EACCES => "permission denied"
  | EPERM => "operation not permitted"
  | EISDIR => "is a directory"
  | ENOTDIR => "not a directory"
  | EIO => "input/output error"
  | EROFS => "read-only file system"
  | ENOSPC => "no space left on device"
  | ENAMETOOLONG => "file name too long"
  end.

Definition error_text (err : error) : string :=
  match err with
  | PathError op path e => op +:+ " " +:+ path +:+ ": " +:+ errno_text e
  | SyscallError call e => call +:+ ": " +:+ errno_text e
  | errorString msg => msg
  | SkipDir => "skip this directory"
  | SkipAll => "skip everything and stop the walk"
  end.

(** An error value as [fmt.Print] shows it. *)
Definition fmt_error (err : option error) : string :=
  match err with
  | Some e => error_text e
  | None => "<nil>"
  end.

(** The five local variables of [printResultsCheckingChecksumFiles]. *)
Record buckets := Buckets {
  matchedChecksumFilesQuantity : nat;
  notMatchedResults : list ChecksumFileVerificationResult;
  notExistingResults : list ChecksumFileVerificationResult;
  lockedResults : list ChecksumFileVerificationResult;
  failedResults : list ChecksumFileVerificationResult
}.

(** The loop over the results, from the values the variables have. *)
Fixpoint classify_from (results : list ChecksumFileVerificationResult)
    (b : buckets) : buckets :=
  match results with
  | [] => b
  | result :: rest =>
      classify_from rest
        match Status result with
        | Match =>
            Buckets (S (matchedChecksumFilesQuantity b)) (notMatchedResults b)
                    (notExistingResults b) (lockedResults b) (failedResults b)
        | NotMatch =>
            Buckets (matchedChecksumFilesQuantity b) (notMatchedResults b ++ [result])
                    (notExistingResults b) (lockedResults b) (failedResults b)
        | NotFound =>
            Buckets (matchedChecksumFilesQuantity b) (notMatchedResults b)
                    (notExistingResults b ++ [result]) (lockedResults b)
                    (failedResults b)
        | LockedVerification =>
            Buckets (matchedChecksumFilesQuantity b) (notMatchedResults b)
                    (notExistingResults b) (lockedResults b ++ [result])
                    (failedResults b)
        | CheckingFailed =>
            Buckets (matchedChecksumFilesQuantity b) (notMatchedResults b)
                    (notExistingResults b) (lockedResults b)
                    (failedResults b ++ [result])
        end
  end.

Definition classify (results : list ChecksumFileVerificationResult) : buckets :=
  classify_from results (Buckets 0 [] [] [] []).

(** [fmt.Println(head, n, tail)]: the operands with a space between. *)
Definition count_line (head : string) (n : nat) (tail : string) : string :=
  head +:+ " " +:+ fmt_d (Z.of_nat n) +:+ " " +:+ tail.

(** A bucket: its count line, then one line [- path] for each result;
    nothing when it is empty. *)
Definition bucket_lines (head tail : string)
    (line : ChecksumFileVerificationResult -> string)
    (rs : list ChecksumFileVerificationResult) : list string :=
  if (0 <? length rs)%nat
  then count_line head (length rs) tail :: map line rs
  else [].

Definition path_line (r : ChecksumFileVerificationResult) : string :=
  "- " +:+ Path r.

Definition failed_line (r : ChecksumFileVerificationResult) : string :=
  "- " +:+ Path r +:+ " | Error: " +:+ fmt_error (Error r).

(** The lines [printResultsCheckingChecksumFiles] writes. *)
Definition printResultsCheckingChecksumFiles
    (results : list ChecksumFileVerificationResult) : list string :=
  let b := classify results in
  (if (0 <? length results)%nat
   then [count_line "Results:" (length results) "files processed"]
   else [])
  ++ (if (0 <? matchedChecksumFilesQuantity b)%nat
      then [count_line "✅ :" (matchedChecksumFilesQuantity b) "checksum files match"]
      else [])
  ++ bucket_lines "⚠️ :" "checksum files not match" path_line (notMatchedResults b)
  ++ bucket_lines "👻 :" "files without a checksum file" path_line
       (notExistingResults b)
  ++ bucket_lines "🔒 :" "files could not be read due to permissions" path_line
       (lockedResults b)
  ++ bucket_lines "❌ :" "checksum files failed to check" failed_line
       (failedResults b).

(** The results with a given status, in order. *)
Definition with_status (st : ChecksumFileVerificationStatus)
    (results : list ChecksumFileVerificationResult)
  : list ChecksumFileVerificationResult :=
  List.filter (fun r => match Status r, st with
                        | Match, Match | NotMatch, NotMatch | NotFound, NotFound
                        | CheckingFailed, CheckingFailed
                        | LockedVerification, LockedVerification => true
                        | _, _ => false
                        end) results.

(** A result as the classifier makes them for a candidate: not for a
    sidecar, and with an error exactly for the two failure statuses. *)
Definition sound_result (r : ChecksumFileVerificationResult) : Prop :=
  String.eqb (filepath_Ext (Path r)) ".sha512" = false
  /\ (Error r <> None <-> Status r = LockedVerification \/ Status r = CheckingFailed).

(** A sidecar whose data file is gone. *)
Definition w_orphan : World :=
  world_of [("/data/gone.txt.sha512", regular (bytes_of_string hello_digest_upper))].

(** ** Test vectors and library facts *)

Example sha512_empty :
  hex.EncodeToString (sha512.Sum512 []) =
  "cf83e1357eefb8bdf1542850d66d8007d620e4050b5715dc83f4a921d36ce9ce47d0d13c5d85f2b0ff8318d2877eec2f63b931bd47417a81a538327af927da3e".
Proof. vm_compute. reflexivity. Qed.

Example sha512_hello :
  hex.EncodeToString (sha512.Sum512 (bytes_of_string "hello")) =
  "9b71d224bd62f3785d96d46ad3ea3d73319bfbc2890caadae2dff72519673ca72323c3d99ba5c11d7c7acc6e14b8c5da0c4663475c2e5c3adef46f73bcdec043".
Proof. vm_compute. reflexivity. Qed.

Example sha512_two_blocks :
  hex.EncodeToString (sha512.Sum512 (repeat "a"%byte 112)) =
  "c01d080efd492776a1c43bd23dd99d0a2e626d481e16782e75d54c2503b5dc32bd05f0f1ba33e568b88fd2d970929b719ecbb152f58f130a407c8830604b70ca".
Proof. vm_compute. reflexivity. Qed.

Example Ext_sidecar : filepath_Ext "/mnt/a.b/budget.pdf.sha512" = ".sha512".
Proof. reflexivity. Qed.

Example Ext_none : filepath_Ext "/mnt/a.b/budget" = "".
Proof. reflexivity. Qed.

Lemma digit_lower_hex n : is_lower_hex (hex.digit n) = true.
Proof.
  unfold hex.digit.
  destruct (Z.to_nat n) as [|k]; [reflexivity|].
  do 15 (destruct k as [|k]; [reflexivity|]).
  reflexivity.
Qed.

Lemma EncodeToString_lower_hex src :
  all_chars is_lower_hex (hex.EncodeToString src) = true.
Proof.
  induction src as [|v rest IH]; simpl; [reflexivity|].
  rewrite !digit_lower_hex, IH. reflexivity.
Qed.

Lemma EncodeToString_length src :
  String.length (hex.EncodeToString src) = (2 * length src)%nat.
Proof. induction src as [|v rest IH]; simpl; [reflexivity|]. rewrite IH. lia. Qed.

Lemma be_bytes_length n x : length (sha512.be_bytes n x) = n.
Proof. unfold sha512.be_bytes. rewrite length_map, length_rev, length_seq. reflexivity. Qed.

Lemma Sum512_length data : length (sha512.Sum512 data) = 64%nat.
Proof.
  unfold sha512.Sum512, sha512.digest_bytes.
  rewrite length_map, !length_app, !be_bytes_length. reflexivity.
Qed.

Lemma lower_hex_ascii c : is_lower_hex c = true -> (RuneSelf <=? code c) = false.
Proof. unfold is_lower_hex, RuneSelf. lia. Qed.

Lemma lower_hex_not_space c : is_lower_hex c = true -> asciiSpace c = false.
Proof.
  unfold is_lower_hex, asciiSpace. intros Hc.
  destruct (code c) as [|p|p] eqn:E; try reflexivity.
  assert (48 <= Z.pos p) by lia.
  do 6 (destruct p as [p|p|]; try reflexivity; try lia).
Qed.

Section StringFacts.
Context `{GoRuntime}.

Lemma trim_start_lower_hex s :
  all_chars is_lower_hex s = true -> trim_start s = inl s.
Proof.
  destruct s as [|c s']; simpl; [reflexivity|].
  intros [Hc _]%andb_prop.
  rewrite (lower_hex_ascii _ Hc), (lower_hex_not_space _ Hc). reflexivity.
Qed.

Lemma all_chars_list P s :
  all_chars P s = forallb P (list_ascii_of_string s).
Proof. induction s as [|c s' IH]; simpl; [reflexivity|]. rewrite IH. reflexivity. Qed.

Lemma trim_stop_lower_hex r :
  forallb is_lower_hex r = true -> trim_stop r = inl r.
Proof.
  destruct r as [|c r']; simpl; [reflexivity|].
  intros [Hc _]%andb_prop.
  rewrite (lower_hex_ascii _ Hc), (lower_hex_not_space _ Hc). reflexivity.
Qed.

(** Trimming leaves a string of hex digits as it is. *)
Lemma TrimSpace_lower_hex s :
  all_chars is_lower_hex s = true -> strings_TrimSpace s = s.
Proof.
  intros Hs. unfold strings_TrimSpace.
  rewrite (trim_start_lower_hex _ Hs), trim_stop_lower_hex.
  - unfold unrev. rewrite rev_involutive. apply string_of_list_ascii_of_string.
  - rewrite forallb_forall. intros c Hc%in_rev.
    rewrite all_chars_list, forallb_forall in Hs. auto.
Qed.

(** A string of ASCII bytes folds equal to itself. *)
Lemma EqualFold_refl_ascii s :
  all_chars (fun c => negb (RuneSelf <=? code c)) s = true ->
  strings_EqualFold s s = true.
Proof.
  induction s as [|c s' IH]; simpl; [reflexivity|].
  intros [Hc Hs]%andb_prop.
  rewrite Z.lor_diag. apply negb_true_iff in Hc. rewrite Hc, Z.eqb_refl. auto.
Qed.

Lemma all_chars_impl (P Q : ascii -> bool) s :
  (forall c, P c = true -> Q c = true) ->
  all_chars P s = true -> all_chars Q s = true.
Proof.
  intros HPQ. induction s as [|c s' IH]; simpl; [reflexivity|].
  intros [Hc Hs]%andb_prop. rewrite (HPQ _ Hc), (IH Hs). reflexivity.
Qed.

Lemma EqualFold_refl_lower_hex s :
  all_chars is_lower_hex s = true -> strings_EqualFold s s = true.
Proof.
  intros Hs. apply EqualFold_refl_ascii.
  revert Hs. apply all_chars_impl. intros c Hc.
  rewrite (lower_hex_ascii _ Hc). reflexivity.
Qed.

(** The hex digits fold equal to their capitals. *)
Lemma EqualFold_step_lower_hex c t :
  is_lower_hex c = true -> ascii_lower t = c ->
  (RuneSelf <=? Z.lor (code c) (code t)) = false
  /\ ((code t =? code c) = true
      \/ ((code t =? code c) = false
          /\ (65 <=? Z.min (code c) (code t)) && (Z.min (code c) (code t) <=? 90)
             && (Z.max (code c) (code t) =? Z.min (code c) (code t) + 32) = true)).
Proof.
  intros Hc Ht. subst c.
  destruct t as [[] [] [] [] [] [] [] []]; try discriminate Hc;
    vm_compute; auto.
Qed.

Lemma EqualFold_lower_hex h t :
  all_chars is_lower_hex h = true -> string_lower t = h ->
  strings_EqualFold h t = true.
Proof.
  revert t. induction h as [|c h IH]; intros [|tc t] Hh Ht; try discriminate.
  - reflexivity.
  - simpl in Hh, Ht. apply andb_prop in Hh as [Hc Hh]. injection Ht as Htc Ht.
    destruct (EqualFold_step_lower_hex c tc Hc Htc) as [Hascii [Heq|[Hne Hcase]]];
      cbn [strings_EqualFold]; rewrite Hascii.
    + rewrite Heq. apply IH; assumption.
    + rewrite Hne, Hcase. apply IH; assumption.
Qed.

Lemma asciiSpace_ascii c : asciiSpace c = true -> (RuneSelf <=? code c) = false.
Proof.
  unfold asciiSpace, RuneSelf. intros Hc.
  destruct (code c) as [|q|q]; try discriminate.
  repeat (destruct q as [q|q|]; try discriminate; try reflexivity).
Qed.

Lemma lower_hex_of_lower c :
  is_lower_hex (ascii_lower c) = true ->
  (RuneSelf <=? code c) = false /\ asciiSpace c = false.
Proof.
  destruct c as [[] [] [] [] [] [] [] []]; intros Hc; try discriminate Hc;
    vm_compute; auto.
Qed.

Lemma trim_start_spaces ws rest :
  all_chars asciiSpace ws = true -> trim_start (ws +:+ rest) = trim_start rest.
Proof.
  induction ws as [|c ws IH]; simpl; [reflexivity|].
  intros [Hc Hws]%andb_prop. rewrite (asciiSpace_ascii _ Hc), Hc. auto.
Qed.

Lemma trim_stop_spaces ws r :
  forallb asciiSpace ws = true -> trim_stop (ws ++ r) = trim_stop r.
Proof.
  induction ws as [|c ws IH]; simpl; [reflexivity|].
  intros [Hc Hws]%andb_prop. rewrite (asciiSpace_ascii _ Hc), Hc. auto.
Qed.

Lemma trim_start_spaces_only ws :
  all_chars asciiSpace ws = true -> trim_start ws = inl EmptyString.
Proof.
  induction ws as [|c ws IH]; simpl; [reflexivity|].
  intros [Hc Hws]%andb_prop. rewrite (asciiSpace_ascii _ Hc), Hc. auto.
Qed.

Lemma list_ascii_app a b :
  list_ascii_of_string (a +:+ b) = list_ascii_of_string a ++ list_ascii_of_string b.
Proof. induction a as [|c a IH]; simpl; [reflexivity|]. rewrite IH. reflexivity. Qed.

(** Text whose lower case is a string of hex digits, between ASCII
    spaces: trimming gives the text back. *)
Lemma TrimSpace_padded ws1 t ws2 :
  all_chars asciiSpace ws1 = true ->
  all_chars asciiSpace ws2 = true ->
  all_chars is_lower_hex (string_lower t) = true ->
  strings_TrimSpace (ws1 +:+ t +:+ ws2) = t.
Proof.
  intros H1 H2 Ht. unfold strings_TrimSpace. rewrite (trim_start_spaces _ _ H1).
  destruct t as [|c t].
  - change ("" +:+ ws2) with ws2.
    rewrite (trim_start_spaces_only _ H2). reflexivity.
  - assert (Hstart : trim_start (String c t +:+ ws2) = inl (String c t +:+ ws2)).
    { change (String c t +:+ ws2) with (String c (t +:+ ws2)).
      simpl in Ht |- *. apply andb_prop in Ht as [Hc _].
      destruct (lower_hex_of_lower c Hc) as [Ha Hs]. rewrite Ha, Hs. reflexivity. }
    rewrite Hstart, list_ascii_app, rev_app_distr, trim_stop_spaces.
    2:{ rewrite forallb_forall. intros x Hx%in_rev.
        rewrite all_chars_list, forallb_forall in H2. auto. }
    assert (Hlast : trim_stop (rev (list_ascii_of_string (String c t)))
                    = inl (rev (list_ascii_of_string (String c t)))).
    { assert (Hall : Forall (fun x => is_lower_hex (ascii_lower x) = true)
                       (rev (list_ascii_of_string (String c t)))).
      { apply Forall_rev. clear Hstart. revert Ht. generalize (String c t).
        intros u. induction u as [|x u IH]; simpl; intros Hu; constructor.
        - apply andb_prop in Hu as [Hx _]. exact Hx.
        - apply andb_prop in Hu as [_ Hu]. auto. }
      destruct (rev (list_ascii_of_string (String c t))) as [|x r]; [reflexivity|].
      apply Forall_cons in Hall as [Hx _].
      destruct (lower_hex_of_lower x Hx) as [Ha Hs]. simpl. rewrite Ha, Hs.
      reflexivity. }
    rewrite Hlast. unfold unrev. rewrite rev_involutive.
    apply string_of_list_ascii_of_string.
Qed.

End StringFacts.

Lemma bytes_string_roundtrip s : string_of_bytes (bytes_of_string s) = s.
Proof. apply string_of_list_byte_of_string. Qed.

(** ** Running the monad *)

Lemma run_bind {A B} (m : IO A) (k : A -> IO B) s :
  bind m k s = k (fst (m s)) (snd (m s)).
Proof. unfold bind. destruct (m s). reflexivity. Qed.

Lemma run_ret {A} (a : A) s : ret a s = (a, s).
Proof. reflexivity. Qed.

Lemma traced_traced a b s : traced b (traced a s) = traced (a ++ b) s.
Proof. unfold traced, set_world. simpl. rewrite app_assoc. reflexivity. Qed.

Lemma open_of_traced cs s p : open_of (world (traced cs s)) p = open_of (world s) p.
Proof. reflexivity. Qed.

Lemma stat_of_traced cs s p : stat_of (world (traced cs s)) p = stat_of (world s) p.
Proof. reflexivity. Qed.

Lemma readfile_of_traced cs s p :
  readfile_of (world (traced cs s)) p = readfile_of (world s) p.
Proof. reflexivity. Qed.

Lemma write_err_traced cs s : write_err (world (traced cs s)) = write_err (world s).
Proof. reflexivity. Qed.

Lemma os_Open_eq p s : os_Open p s = (open_of (world s) p, traced [SysOpen p] s).
Proof. reflexivity. Qed.

Lemma os_Stat_eq p s : os_Stat p s = (stat_of (world s) p, traced [SysStat p] s).
Proof. reflexivity. Qed.

Lemma os_ReadFile_eq p s :
  os_ReadFile p s = (readfile_of (world s) p, traced [SysReadFile p] s).
Proof. reflexivity. Qed.

Lemma File_Close_eq f s : File_Close f s = (tt, traced [SysClose (f_name f)] s).
Proof. reflexivity. Qed.

Lemma io_Copy_sha512_eq f s :
  io_Copy_sha512 f s =
  (match read_of f with
   | Err e => Err e
   | Ok data => Ok (sha512.Sum512 data)
   end, traced [SysRead (f_name f)] s).
Proof. unfold io_Copy_sha512. rewrite run_bind. destruct (read_of f); reflexivity. Qed.

Lemma os_WriteFile_eq p data s :
  os_WriteFile p data s =
  match write_err (world s) !! p with
  | Some e => (Some (PathError "open" p e), traced [SysWriteFile p data] s)
  | None => (None, written p data (traced [SysWriteFile p data] s))
  end.
Proof.
  unfold os_WriteFile. rewrite !run_bind. cbn [fst snd sys get_world].
  change (write_err (world (set_world _ s))) with (write_err (world s)).
  destruct (write_err (world s) !! p); reflexivity.
Qed.

Lemma open_of_name w p f : open_of w p = Ok f -> f_name f = p.
Proof.
  unfold open_of. destruct (files w !! p) as [i|]; [|discriminate].
  destruct (i_open_err i); [discriminate|]. intros [= <-]. reflexivity.
Qed.

Ltac io_run :=
  repeat first
    [ rewrite run_bind
    | rewrite os_Open_eq | rewrite os_Stat_eq | rewrite os_ReadFile_eq
    | rewrite File_Close_eq | rewrite io_Copy_sha512_eq
    | rewrite run_ret
    | rewrite traced_traced
    | rewrite open_of_traced | rewrite stat_of_traced | rewrite readfile_of_traced
    | progress cbn [fst snd app] ].

Ltac case_branches :=
  repeat match goal with
         | |- context [match ?x with _ => _ end] => destruct x eqn:?; io_run
         end.

(** ** The verification classifier *)

Section Verification.
Context `{GoRuntime}.

(** The open fails on permissions: one call, [Locked]. *)
Lemma checkChecksumFile_locked (s : State) (p : string) (err : error) :
  open_of (world s) p = Err err ->
  os_IsPermission err = true ->
  checkChecksumFile p s
    = (VerificationResult p LockedVerification (Some err), traced [SysOpen p] s).
Proof.
  intros Hopen Hperm.
  unfold checkChecksumFile. io_run. rewrite Hopen, Hperm. reflexivity.
Qed.


(** The file opens and the stat of the sidecar fails: [NotFound] when
    the error is not-exist, [CheckingFailed] otherwise; file not read. *)
Lemma checkChecksumFile_stat_fails (s : State) (p : string) (file : File)
    (serr : error) :
  open_of (world s) p = Ok file ->
  stat_of (world s) (p +:+ ".sha512") = Err serr ->
  checkChecksumFile p s
    = (if errors_Is_ErrNotExist serr
       then VerificationResult p NotFound None
       else VerificationResult p CheckingFailed (Some serr),
       traced [SysOpen p; SysStat (p +:+ ".sha512"); SysClose p] s).
Proof.
  intros Hopen Hstat.
  unfold checkChecksumFile, defer. io_run. rewrite Hopen. io_run.
  rewrite Hstat. rewrite (open_of_name _ _ _ Hopen).
  destruct (errors_Is_ErrNotExist serr); io_run; reflexivity.
Qed.

(** Every call succeeds: the comparison decides. *)
Lemma checkChecksumFile_compares (s : State) (p : string) (file : File)
    (data content : list byte) (info : FileInfo) :
  open_of (world s) p = Ok file ->
  read_of file = Ok data ->
  stat_of (world s) (p +:+ ".sha512") = Ok info ->
  readfile_of (world s) (p +:+ ".sha512") = Ok content ->
  checkChecksumFile p s
    = (VerificationResult p
         (if strings_EqualFold (hex.EncodeToString (sha512.Sum512 data))
                               (strings_TrimSpace (string_of_bytes content))
          then Match else NotMatch)
         None,
       traced [SysOpen p; SysStat (p +:+ ".sha512"); SysRead p;
               SysReadFile (p +:+ ".sha512"); SysClose p] s).
Proof.
  intros Hopen Hread Hstat Hside.
  unfold checkChecksumFile, defer. io_run. rewrite Hopen. io_run.
  rewrite Hstat. io_run. rewrite Hread. io_run. rewrite Hside.
  rewrite (open_of_name _ _ _ Hopen).
  destruct (strings_EqualFold _ _); io_run; reflexivity.
Qed.

Lemma check_status_error (s : State) (p : string) :
  let r := fst (checkChecksumFile p s) in
  Path r = p /\
  (Error r <> None <-> Status r = LockedVerification \/ Status r = CheckingFailed).
Proof.
  unfold checkChecksumFile, defer. io_run.
  case_branches; cbn; (split; [reflexivity|]); intuition congruence.
Qed.

(** Whatever happens next, the first call is the open of the data file. *)
Lemma checkChecksumFile_opens_first (s : State) (p : string) :
  exists cs,
    trace (world (snd (checkChecksumFile p s))) = trace (world s) ++ SysOpen p :: cs.
Proof.
  unfold checkChecksumFile, defer. io_run.
  case_branches; eexists; reflexivity.
Qed.

End Verification.

(** ** The creation classifier *)

Lemma traced_written cs n d s : traced cs (written n d s) = written n d (traced cs s).
Proof. reflexivity. Qed.

Lemma append_neq (p x : string) : x <> "" -> p <> p +:+ x.
Proof.
  intros Hx. induction p as [|c p IH]; simpl.
  - intros E. apply Hx. symmetry. exact E.
  - intros [= E]. exact (IH E).
Qed.

Lemma sidecar_neq p : p +:+ ".sha512" <> p.
Proof. intros E. symmetry in E. revert E. apply append_neq. discriminate. Qed.

Lemma open_of_written n d s p :
  n <> p -> open_of (world (written n d s)) p = open_of (world s) p.
Proof. intros Hn. unfold open_of. cbn. rewrite lookup_insert_ne by exact Hn. reflexivity. Qed.

Lemma stat_of_written_eq n d s :
  stat_of (world (written n d s)) n = Ok fileInfo.
Proof. unfold stat_of. cbn. rewrite lookup_insert_eq. reflexivity. Qed.

Lemma readfile_of_written_eq n d s :
  readfile_of (world (written n d s)) n = Ok d.
Proof. unfold readfile_of, open_of. cbn. rewrite lookup_insert_eq. reflexivity. Qed.

Ltac io_run_w :=
  repeat first
    [ progress io_run
    | rewrite os_WriteFile_eq
    | rewrite traced_written
    | rewrite write_err_traced ].

Section Creation.
Context `{GoRuntime}.

(** The sidecar is there: one stat, [Existing]. *)
Lemma createChecksumFile_existing (s : State) (p : string) (info : FileInfo) :
  stat_of (world s) (p +:+ ".sha512") = Ok info ->
  createChecksumFile p s
    = (CreationResult p Existing None, traced [SysStat (p +:+ ".sha512")] s).
Proof.
  intros Hstat. unfold createChecksumFile. io_run. rewrite Hstat. reflexivity.
Qed.

(** Every call succeeds: the digest text is written, [Created]. *)
Lemma createChecksumFile_created (s : State) (p : string) (file : File)
    (data : list byte) (serr : error) :
  open_of (world s) p = Ok file ->
  read_of file = Ok data ->
  stat_of (world s) (p +:+ ".sha512") = Err serr ->
  errors_Is_ErrNotExist serr = true ->
  write_err (world s) !! (p +:+ ".sha512") = None ->
  createChecksumFile p s
    = (CreationResult p Created None,
       written (p +:+ ".sha512") (bytes_of_string (sidecar_text data))
         (traced [SysStat (p +:+ ".sha512"); SysOpen p; SysRead p;
                  SysWriteFile (p +:+ ".sha512") (bytes_of_string (sidecar_text data));
                  SysClose p] s)).
Proof.
  intros Hopen Hread Hstat Hnone Hwrite.
  unfold sidecar_text, createChecksumFile, defer. io_run.
  rewrite Hstat, Hnone. cbn [negb].
  io_run. rewrite Hopen. io_run. rewrite Hread. io_run_w.
  rewrite Hwrite. io_run_w.
  rewrite (open_of_name _ _ _ Hopen). reflexivity.
Qed.

Lemma sidecar_text_length data : String.length (sidecar_text data) = 128%nat.
Proof.
  unfold sidecar_text. rewrite EncodeToString_length, Sum512_length. reflexivity.
Qed.

Lemma sidecar_text_lower_hex data : all_chars is_lower_hex (sidecar_text data) = true.
Proof. apply EncodeToString_lower_hex. Qed.

(** [create] says [Created] only after the stat of the sidecar has
    answered not-exist and the open, the read and the write have all
    succeeded. *)
Lemma createChecksumFile_created_inv (s : State) (p : string) :
  CStatus (fst (createChecksumFile p s)) = Created ->
  exists file data serr,
    open_of (world s) p = Ok file /\ read_of file = Ok data /\
    stat_of (world s) (p +:+ ".sha512") = Err serr /\
    errors_Is_ErrNotExist serr = true /\
    write_err (world s) !! (p +:+ ".sha512") = None.
Proof.
  unfold createChecksumFile, defer. io_run.
  destruct (stat_of (world s) (p +:+ ".sha512")) as [info|serr]; io_run;
    [discriminate|].
  destruct (errors_Is_ErrNotExist serr) eqn:Hnone; cbn [negb]; io_run;
    [|discriminate].
  destruct (open_of (world s) p) as [file|err] eqn:Hopen; io_run.
  2:{ destruct (os_IsPermission err); discriminate. }
  destruct (read_of file) as [data|err] eqn:Hread; io_run_w; [|discriminate].
  destruct (write_err (world s) !! (p +:+ ".sha512")) eqn:Hw; io_run_w;
    [discriminate|].
  intros _. exists file, data, serr. auto.
Qed.

Lemma create_status_error (s : State) (p : string) :
  let r := fst (createChecksumFile p s) in
  CPath r = p /\
  (CError r <> None <-> CStatus r = LockedCreation \/ CStatus r = Failed).
Proof.
  unfold createChecksumFile, defer. io_run.
  case_branches; io_run_w; case_branches; cbn;
    (split; [reflexivity|]); intuition congruence.
Qed.

End Creation.

(** ** filepath.Walk as a sequence of calls *)


Lemma run_visits_app fn a b s :
  run_visits fn (a ++ b) s =
  match run_visits fn a s with
  | (Some e, s') => (Some e, s')
  | (None, s') => run_visits fn b s'
  end.
Proof.
  revert s. induction a as [|v a IH]; intros s; simpl; [reflexivity|].
  rewrite !run_bind.
  destruct (fn (v_path v) (v_info v) (v_err v) s) as [[e|] s']; cbn [fst snd].
  - reflexivity.
  - apply IH.
Qed.

(** As long as the calls do not answer [SkipDir], [walk] makes the calls
    of [visits] one after the other and stops at the first error. *)
Lemma walk_run_visits fn n :
  forall path s,
    fst (run_visits fn (visits path n) s) <> Some SkipDir ->
    walk path n fn s = run_visits fn (visits path n) s.
Proof.
  induction n as [e| |op e|entries IH] using wnode_nested_ind; intros path s Hskip.
  - simpl in *. rewrite run_bind in *.
    destruct (fn path None _ s) as [[r|] s']; reflexivity.
  - simpl in *. rewrite run_bind in *.
    destruct (fn path _ None s) as [[r|] s']; reflexivity.
  - simpl in *. rewrite run_bind in *.
    destruct (fn path _ _ s) as [[r|] s']; reflexivity.
  - simpl in *. rewrite !run_bind in *.
    destruct (fn path (Some dirInfo) None s) as [[r|] s1]; cbn [fst snd] in *;
      [reflexivity|].
    clear s. revert s1 Hskip.
    induction IH as [|[name c] rest Hc _ IHrest]; intros s Hskip; [reflexivity|].
    cbn [snd] in Hc. rewrite run_visits_app in Hskip |- *. rewrite run_bind.
    destruct (run_visits fn (visits (filepath_Join path name) c) s)
      as [[e|] s'] eqn:Hrun.
    + rewrite Hc by (rewrite Hrun; exact Hskip). rewrite Hrun. cbn [fst snd] in *.
      assert (Hs : stops c e = true).
      { destruct c; [| reflexivity | |]; cbn;
          destruct e; try reflexivity; congruence. }
      rewrite Hs. reflexivity.
    + rewrite Hc by (rewrite Hrun; discriminate). rewrite Hrun. cbn [fst snd].
      apply IHrest. exact Hskip.
Qed.

(** The errors a walk hands to its function are path errors. *)
Lemma visits_err_path n :
  forall path v e,
    In v (visits path n) -> v_err v = Some e ->
    exists op q en, e = PathError op q en.
Proof.
  induction n as [e0| |op e0|entries IH] using wnode_nested_ind;
    intros path v e Hin Herr; simpl in Hin.
  - destruct Hin as [<-|[]]. cbn in Herr. injection Herr as <-. eauto.
  - destruct Hin as [<-|[]]. discriminate.
  - destruct Hin as [<-|[]]. cbn in Herr. injection Herr as <-. eauto.
  - destruct Hin as [<-|Hin]; [discriminate|].
    induction IH as [|[name c] rest Hc _ IHrest]; [destruct Hin|].
    apply in_app_or in Hin. destruct Hin as [Hin|Hin]; eauto.
Qed.

Lemma root_visits_err_path w root v e :
  In v (root_visits w root) -> v_err v = Some e ->
  exists op q en, e = PathError op q en.
Proof.
  unfold root_visits. destruct (listing w !! root) as [n|].
  - apply visits_err_path.
  - intros [<-|[]]. cbn. intros [= <-]. eauto.
Qed.

Lemma Walk_run_visits fn root s :
  let r := run_visits fn (root_visits (world s) root) s in
  fst r <> Some SkipDir -> fst r <> Some SkipAll ->
  filepath_Walk root fn s = r.
Proof.
  intros r Hdir Hall. subst r. unfold filepath_Walk, root_visits in *.
  rewrite !run_bind. cbn [get_world fst snd].
  destruct (listing (world s) !! root) as [n|].
  - rewrite walk_run_visits by exact Hdir.
    destruct (run_visits fn (visits root n) s) as [[e|] s']; cbn [fst snd] in *;
      [|reflexivity].
    destruct e; try reflexivity; congruence.
  - simpl in *. rewrite run_bind in *.
    destruct (fn root None _ s) as [[e|] s']; cbn [fst snd ret] in *; [|reflexivity].
    destruct e; try reflexivity; congruence.
Qed.

(** A walk that meets an error at a node after the calls [pre]: the
    error comes back from [filepath.Walk], and nothing after the node is
    called. *)
Lemma Walk_failure fn root s pre q i e post :
  root_visits (world s) root = pre ++ Visit q i (Some e) :: post ->
  fst (run_visits fn pre s) = None ->
  fst (fn q i (Some e) (snd (run_visits fn pre s))) = Some e ->
  filepath_Walk root fn s
    = (Some e, snd (fn q i (Some e) (snd (run_visits fn pre s)))).
Proof.
  intros Hvs Hpre Hfn.
  assert (Hrun : run_visits fn (root_visits (world s) root) s
                 = (Some e, snd (fn q i (Some e) (snd (run_visits fn pre s))))).
  { rewrite Hvs, run_visits_app.
    destruct (run_visits fn pre s) as [r s1]. cbn [fst snd] in *. subst r.
    simpl. rewrite run_bind.
    destruct (fn q i (Some e) s1) as [r s2]. cbn [fst snd] in *. subst r.
    reflexivity. }
  destruct (root_visits_err_path (world s) root (Visit q i (Some e)) e)
    as (op & q' & en & ->).
  { rewrite Hvs. apply in_or_app. right. left. reflexivity. }
  { reflexivity. }
  rewrite <- Hrun. apply Walk_run_visits; rewrite Hrun; discriminate.
Qed.

(** A walk whose calls all return nil. *)
Lemma Walk_success fn root s :
  fst (run_visits fn (root_visits (world s) root) s) = None ->
  filepath_Walk root fn s
    = (None, snd (run_visits fn (root_visits (world s) root) s)).
Proof.
  intros Hrun. rewrite Walk_run_visits by (rewrite Hrun; discriminate).
  destruct (run_visits fn _ s) as [r s']. cbn [fst snd] in *. subst r. reflexivity.
Qed.

Lemma run_visits_frame {X} (f : State -> X) fn vs :
  (forall p i s, f (snd (fn p i None s)) = f s) ->
  Forall (fun v => v_err v = None) vs ->
  forall s, f (snd (run_visits fn vs s)) = f s.
Proof.
  intros Hfn Hvs. induction Hvs as [|v rest Hv _ IH]; intros s; [reflexivity|].
  simpl. rewrite run_bind, Hv.
  specialize (Hfn (v_path v) (v_info v) s).
  destruct (fn (v_path v) (v_info v) None s) as [[e|] s']; cbn [fst snd] in *.
  - exact Hfn.
  - rewrite IH. exact Hfn.
Qed.

Section Traversal.
Context `{GoRuntime}.

Lemma checkCmd_walkFn_eq :
  checkCmd_walkFn
  = processPaths_walkFn ref_errorsChecking
      (fun p => handleChecksumFileVerification p ref_resultsChecking).
Proof. reflexivity. Qed.

(** The classifiers change the world and nothing else. *)
Lemma checkChecksumFile_world p s :
  exists w, snd (checkChecksumFile p s) = set_world w s
            /\ listing w = listing (world s).
Proof.
  unfold checkChecksumFile, defer. io_run.
  case_branches; eexists; split; reflexivity.
Qed.

Lemma createChecksumFile_world p s :
  exists w, snd (createChecksumFile p s) = set_world w s
            /\ listing w = listing (world s).
Proof.
  unfold createChecksumFile, defer. io_run.
  case_branches; io_run_w; case_branches; eexists; split; reflexivity.
Qed.

Lemma handleChecksumFileVerification_run p a s :
  filepath_Abs p = inl a ->
  let s' := snd (handleChecksumFileVerification p ref_resultsChecking s) in
  fst (handleChecksumFileVerification p ref_resultsChecking s) = None
  /\ map Path (resultsCheckingChecksumFiles s')
     = map Path (resultsCheckingChecksumFiles s) ++ file_candidate a
  /\ errorsCheckingChecksumFiles s' = errorsCheckingChecksumFiles s.
Proof.
  intros Habs. unfold handleChecksumFileVerification, abs_result, file_candidate.
  rewrite Habs. destruct (String.eqb _ _).
  - cbn. rewrite app_nil_r. auto.
  - rewrite !run_bind. cbn [fst snd append_to ret].
    destruct (check_status_error s a) as [Hpath _]. cbn zeta in Hpath.
    destruct (checkChecksumFile_world a s) as (w & Hw & _).
    destruct (checkChecksumFile a s) as [r s1]. cbn [fst snd] in *. subst s1.
    unfold record_in. cbn. rewrite map_app. cbn. rewrite Hpath. auto.
Qed.

Lemma handleChecksumFileCreation_run p a s :
  filepath_Abs p = inl a ->
  let s' := snd (handleChecksumFileCreation p ref_resultsCreating s) in
  fst (handleChecksumFileCreation p ref_resultsCreating s) = None
  /\ map CPath (resultsCreatingChecksumFiles s')
     = map CPath (resultsCreatingChecksumFiles s) ++ file_candidate a
  /\ errorsCreatingChecksumFiles s' = errorsCreatingChecksumFiles s.
Proof.
  intros Habs. unfold handleChecksumFileCreation, abs_result, file_candidate.
  rewrite Habs. destruct (String.eqb _ _).
  - cbn. rewrite app_nil_r. auto.
  - rewrite !run_bind. cbn [fst snd append_to ret].
    destruct (create_status_error s a) as [Hpath _]. cbn zeta in Hpath.
    destruct (createChecksumFile_world a s) as (w & Hw & _).
    destruct (createChecksumFile a s) as [r s1]. cbn [fst snd] in *. subst s1.
    unfold record_in. cbn. rewrite map_app. cbn. rewrite Hpath. auto.
Qed.

(** Sound visits through a handler that records one outcome per
    candidate and returns nil: every candidate is recorded, in order. *)
Lemma run_visits_sound (el : ref (list error)) (h : string -> IO (option error))
    (recorded : State -> list string) (vs : list visit) :
  (forall p a s, filepath_Abs p = inl a ->
     fst (h p s) = None /\ recorded (snd (h p s)) = recorded s ++ file_candidate a) ->
  Forall sound_visit vs ->
  forall s,
    fst (run_visits (processPaths_walkFn el h) vs s) = None
    /\ recorded (snd (run_visits (processPaths_walkFn el h) vs s))
       = recorded s ++ candidates vs.
Proof.
  intros Hh Hvs. induction Hvs as [|v rest Hv _ IH]; intros s.
  - cbn. rewrite app_nil_r. auto.
  - destruct v as [p [info|] err]; destruct Hv as [Herr Hinfo]; cbn in Herr, Hinfo;
      [subst err|destruct Hinfo].
    cbn [run_visits candidates v_path v_info v_err]. rewrite run_bind.
    assert (Hfn : processPaths_walkFn el h p (Some info) None s
                  = if IsDir info then (None, s) else h p s).
    { unfold processPaths_walkFn. destruct (IsDir info); reflexivity. }
    rewrite Hfn. clear Hfn.
    destruct (IsDir info) eqn:Hdir.
    + cbn [fst snd orb]. destruct (filepath_Abs p); apply IH.
    + destruct Hinfo as [Hd|[a Ha]]; [discriminate|].
      destruct (Hh p a s Ha) as [Hnone Hrec]. rewrite Ha.
      destruct (h p s) as [r s1]. cbn [fst snd] in *. subst r.
      destruct (IH s1) as [IH1 IH2]. split; [exact IH1|].
      rewrite IH2, Hrec. unfold file_candidate. cbn [orb].
      destruct (String.eqb _ _); [rewrite app_nil_r|rewrite <- app_assoc];
        reflexivity.
Qed.

Lemma sound_visits_no_err vs :
  Forall sound_visit vs -> Forall (fun v => v_err v = None) vs.
Proof.
  intros Hvs. induction Hvs as [|v rest [Hv _] _ IH]; constructor; assumption.
Qed.

End Traversal.


(** ** One argument of the two loops *)

Section Loops.
Context `{GoRuntime}.

(** The state in which the check command starts the walk of an argument. *)
Lemma checkCmd_Run_dir path rest s info root :
  stat_of (world s) path = Ok info ->
  IsDir info = true ->
  filepath_Abs path = inl root ->
  checkCmd_Run (path :: rest) s
  = let r := filepath_Walk root checkCmd_walkFn (check_walk_start path s) in
    checkCmd_Run rest
      match fst r with
      | Some e => record_in ref_errorsChecking e (snd r)
      | None => snd r
      end.
Proof.
  intros Hstat Hdir Habs. cbn [checkCmd_Run]. io_run.
  rewrite Hstat, Hdir. unfold abs_result. rewrite Habs. io_run.
  cbn [assign snd fst]. fold (check_walk_start path s). cbn zeta.
  destruct (filepath_Walk root checkCmd_walkFn (check_walk_start path s))
    as [[e|] s1]; reflexivity.
Qed.

Lemma processPaths_dir path rest el h s info root :
  stat_of (world s) path = Ok info ->
  IsDir info = true ->
  filepath_Abs path = inl root ->
  processPaths (path :: rest) el h s
  = let r := filepath_Walk root (processPaths_walkFn el h)
               (traced [SysStat path] s) in
    processPaths rest el h
      match fst r with
      | Some e => record_in el e (snd r)
      | None => snd r
      end.
Proof.
  intros Hstat Hdir Habs. cbn [processPaths]. io_run.
  rewrite Hstat, Hdir. unfold abs_result. rewrite Habs. io_run. cbn zeta.
  destruct (filepath_Walk root (processPaths_walkFn el h) (traced [SysStat path] s))
    as [[e|] s1]; reflexivity.
Qed.

(** The walk function of the check command leaves the error list alone
    when it is given no error. *)
Lemma checkCmd_walkFn_errors p i s :
  errorsCheckingChecksumFiles (snd (checkCmd_walkFn p i None s))
  = errorsCheckingChecksumFiles s.
Proof.
  unfold checkCmd_walkFn. destruct i as [info|]; [|reflexivity].
  destruct (IsDir info); [reflexivity|].
  unfold handleChecksumFileVerification.
  destruct (abs_result p) as [a|err]; [|reflexivity].
  destruct (String.eqb _ _); [reflexivity|].
  rewrite !run_bind. cbn [fst snd append_to ret].
  destruct (checkChecksumFile_world a s) as (w & Hw & _).
  destruct (checkChecksumFile a s) as [r s1]. cbn [fst snd] in *. subst s1.
  reflexivity.
Qed.

Lemma check_pre_runs pre s :
  Forall sound_visit pre ->
  fst (run_visits checkCmd_walkFn pre s) = None
  /\ map Path (resultsCheckingChecksumFiles (snd (run_visits checkCmd_walkFn pre s)))
     = map Path (resultsCheckingChecksumFiles s) ++ candidates pre
  /\ errorsCheckingChecksumFiles (snd (run_visits checkCmd_walkFn pre s))
     = errorsCheckingChecksumFiles s.
Proof.
  intros Hpre.
  destruct (run_visits_sound ref_errorsChecking
              (fun p => handleChecksumFileVerification p ref_resultsChecking)
              (fun s => map Path (resultsCheckingChecksumFiles s)) pre) with (s := s)
    as [Hnone Hrec].
  - intros p a s0 Ha.
    destruct (handleChecksumFileVerification_run p a s0 Ha) as (? & ? & ?). auto.
  - exact Hpre.
  - rewrite <- checkCmd_walkFn_eq in Hnone, Hrec. split; [exact Hnone|].
    split; [exact Hrec|].
    apply (run_visits_frame errorsCheckingChecksumFiles).
    + intros. apply checkCmd_walkFn_errors.
    + apply sound_visits_no_err. exact Hpre.
Qed.

(** A directory argument whose walk meets an error after the calls
    [pre]: the error is recorded by the walk function, comes back from
    the walk and is recorded again; the loop goes on with the other
    arguments. *)
Lemma checkCmd_Run_walk_failure path rest s info root pre q i e post :
  stat_of (world s) path = Ok info ->
  IsDir info = true ->
  filepath_Abs path = inl root ->
  root_visits (world s) root = pre ++ Visit q i (Some e) :: post ->
  Forall sound_visit pre ->
  checkCmd_Run (path :: rest) s
  = checkCmd_Run rest
      (record_in ref_errorsChecking e
         (record_in ref_errorsChecking e
            (snd (run_visits checkCmd_walkFn pre (check_walk_start path s))))).
Proof.
  intros Hstat Hdir Habs Hvs Hpre.
  rewrite (checkCmd_Run_dir path rest s info root Hstat Hdir Habs).
  destruct (check_pre_runs pre (check_walk_start path s) Hpre) as (Hnone & _ & _).
  rewrite (Walk_failure checkCmd_walkFn root (check_walk_start path s) pre q i e post).
  - reflexivity.
  - exact Hvs.
  - exact Hnone.
  - reflexivity.
Qed.

Lemma processPaths_walk_failure path rest el h s info root pre q i e post :
  stat_of (world s) path = Ok info ->
  IsDir info = true ->
  filepath_Abs path = inl root ->
  root_visits (world s) root = pre ++ Visit q i (Some e) :: post ->
  fst (run_visits (processPaths_walkFn el h) pre (traced [SysStat path] s)) = None ->
  processPaths (path :: rest) el h s
  = processPaths rest el h
      (record_in el e
         (record_in el e
            (snd (run_visits (processPaths_walkFn el h) pre
                    (traced [SysStat path] s))))).
Proof.
  intros Hstat Hdir Habs Hvs Hnone.
  rewrite (processPaths_dir path rest el h s info root Hstat Hdir Habs).
  rewrite (Walk_failure (processPaths_walkFn el h) root (traced [SysStat path] s)
             pre q i e post).
  - reflexivity.
  - exact Hvs.
  - exact Hnone.
  - reflexivity.
Qed.

Lemma record_twice {A} (el : ref (list A)) (x : A) s :
  lawful el ->
  load el (record_in el x (record_in el x s)) = load el s ++ [x; x].
Proof.
  intros Hel. unfold record_in. rewrite !Hel, <- app_assoc. reflexivity.
Qed.

End Loops.

(** * The claims *)

Section Claims.
Context `{GoRuntime}.

(** C2.  [verify] opens the data file before it looks at the sidecar (the
    open is the first call of every run): a permission failure on that
    open gives [Locked] with the error of the open, whatever the sidecar
    is and even when there is none; the open is then the only call made,
    and the outcome is never [NotFound]. *)
Theorem check_locked_before_sidecar (s : State) (p : string) (err : error) :
  open_of (world s) p = Err err ->
  os_IsPermission err = true ->
  checkChecksumFile p s
    = (VerificationResult p LockedVerification (Some err), traced [SysOpen p] s)
  /\ Status (fst (checkChecksumFile p s)) <> NotFound
  /\ Error (fst (checkChecksumFile p s)) <> None
  /\ (forall s0 p0, exists cs,
        trace (world (snd (checkChecksumFile p0 s0)))
        = trace (world s0) ++ SysOpen p0 :: cs).
Proof.
  intros Hopen Hperm. rewrite (checkChecksumFile_locked s p err Hopen Hperm).
  split; [reflexivity|]. split; [discriminate|]. split; [discriminate|].
  apply checkChecksumFile_opens_first.
Qed.

(** C3, as the code has it.  For a data file that opens and reads and a
    sidecar that exists and can be read, [verify] compares the hex digest
    of the whole content with the trimmed sidecar text by [EqualFold]:
    [Match] if they are equal under it, [NotMatch] if not, no error in
    either case.  In particular the digest in any letter case, with ASCII
    white space around it, is a [Match]. *)
Theorem check_compares_trimmed_fold (s : State) (p : string) (file : File)
    (data content : list byte) (info : FileInfo) :
  open_of (world s) p = Ok file ->
  read_of file = Ok data ->
  stat_of (world s) (p +:+ ".sha512") = Ok info ->
  readfile_of (world s) (p +:+ ".sha512") = Ok content ->
  let digest := hex.EncodeToString (sha512.Sum512 data) in
  let equal :=
    strings_EqualFold digest (strings_TrimSpace (string_of_bytes content)) in
  fst (checkChecksumFile p s)
    = VerificationResult p (if equal then Match else NotMatch) None
  /\ (forall ws1 t ws2,
        all_chars asciiSpace ws1 = true ->
        all_chars asciiSpace ws2 = true ->
        string_lower t = digest ->
        string_of_bytes content = ws1 +:+ t +:+ ws2 ->
        fst (checkChecksumFile p s) = VerificationResult p Match None).
Proof.
  intros Hopen Hread Hstat Hside digest equal.
  rewrite (checkChecksumFile_compares s p file data content info)
    by assumption.
  split; [reflexivity|].
  intros ws1 t ws2 H1 H2 Ht Hcontent. cbn [fst].
  assert (Hhex : all_chars is_lower_hex (string_lower t) = true).
  { rewrite Ht. apply EncodeToString_lower_hex. }
  rewrite Hcontent, (TrimSpace_padded ws1 t ws2 H1 H2 Hhex).
  rewrite (EqualFold_lower_hex _ t (EncodeToString_lower_hex _) Ht).
  reflexivity.
Qed.

(** C4, as the algorithms have it.  Round trip: for every content [C] of
    a data file with no sidecar, whenever [create] answers [Created],
    [verify] run after it on the same file answers [Match] with no error,
    and the sidecar it read is the hex digest of [C]. *)
Theorem create_then_check_match (s : State) (p : string) (i : inode)
    (C : list byte) :
  files (world s) !! p = Some i ->
  i_data i = C ->
  files (world s) !! (p +:+ ".sha512") = None ->
  CStatus (fst (createChecksumFile p s)) = Created ->
  fst (checkChecksumFile p (snd (createChecksumFile p s)))
    = VerificationResult p Match None
  /\ readfile_of (world (snd (createChecksumFile p s))) (p +:+ ".sha512")
     = Ok (bytes_of_string (sidecar_text C)).
Proof.
  intros Hfile HC Hside Hcreated.
  destruct (createChecksumFile_created_inv s p Hcreated)
    as (file & data & serr & Hopen & Hread & Hstat & Hnone & Hwrite).
  assert (Hdata : data = C).
  { unfold open_of in Hopen. rewrite Hfile in Hopen.
    destruct (i_open_err i); [discriminate|]. injection Hopen as <-.
    unfold read_of in Hread. cbn in Hread.
    destruct (i_read_err i); [discriminate|]. injection Hread as <-. exact HC. }
  subst data.
  rewrite (createChecksumFile_created s p file C serr Hopen Hread Hstat Hnone Hwrite).
  cbn [snd]. split; [|apply readfile_of_written_eq].
  rewrite (checkChecksumFile_compares _ p file C
             (bytes_of_string (sidecar_text C)) fileInfo).
  - cbn [fst]. rewrite bytes_string_roundtrip.
    rewrite (TrimSpace_lower_hex _ (sidecar_text_lower_hex C)).
    unfold sidecar_text.
    rewrite (EqualFold_refl_lower_hex _ (EncodeToString_lower_hex _)). reflexivity.
  - rewrite open_of_written by apply sidecar_neq. exact Hopen.
  - exact Hread.
  - apply stat_of_written_eq.
  - apply readfile_of_written_eq.
Qed.

(** C5.  With a sidecar already there, [create] answers [Existing] with
    no error after the one stat of the sidecar: no file is written or
    changed, the sidecar keeps its bytes, and the data file is not opened,
    read or hashed, so it may as well be unreadable. *)
Theorem create_existing_untouched (s : State) (p : string) (info : FileInfo) :
  stat_of (world s) (p +:+ ".sha512") = Ok info ->
  let s' := snd (createChecksumFile p s) in
  fst (createChecksumFile p s) = CreationResult p Existing None
  /\ files (world s') = files (world s)
  /\ trace (world s') = trace (world s) ++ [SysStat (p +:+ ".sha512")].
Proof.
  intros Hstat s'. subst s'.
  rewrite (createChecksumFile_existing s p info Hstat).
  repeat split; reflexivity.
Qed.

(** C6, as the code has it.  For a data file that can be opened and
    whose sidecar's stat answers that the sidecar does not exist,
    [verify] answers [NotFound] with no error; the file is not read, so
    its content plays no part.  A stat of the sidecar that fails in any
    other way gives [CheckingFailed] with the error of the stat, also when
    there is no sidecar. *)
Theorem check_not_found_when_opened (s : State) (p : string) (file : File)
    (serr : error) :
  open_of (world s) p = Ok file ->
  stat_of (world s) (p +:+ ".sha512") = Err serr ->
  let calls := [SysOpen p; SysStat (p +:+ ".sha512"); SysClose p] in
  (errors_Is_ErrNotExist serr = true ->
   checkChecksumFile p s = (VerificationResult p NotFound None, traced calls s))
  /\ (errors_Is_ErrNotExist serr = false ->
      checkChecksumFile p s
      = (VerificationResult p CheckingFailed (Some serr), traced calls s)).
Proof.
  intros Hopen Hstat calls.
  rewrite (checkChecksumFile_stat_fails s p file serr Hopen Hstat).
  split; intros ->; reflexivity.
Qed.

(** C7, as the creation algorithm has it.  For a data file that opens and
    reads, with no sidecar (the stat of the sidecar path answers
    not-exist) and a sidecar path that can be written, [create] answers
    [Created] with no error and the sidecar then holds
    exactly the hex digest of the whole content: 128 characters, each one
    of 0-9 a-f, so 512 bits in lowercase with no newline after them. *)
Theorem create_writes_hex_digest (s : State) (p : string) (file : File)
    (data : list byte) (serr : error) :
  open_of (world s) p = Ok file ->
  read_of file = Ok data ->
  stat_of (world s) (p +:+ ".sha512") = Err serr ->
  errors_Is_ErrNotExist serr = true ->
  write_err (world s) !! (p +:+ ".sha512") = None ->
  let text := hex.EncodeToString (sha512.Sum512 data) in
  fst (createChecksumFile p s) = CreationResult p Created None
  /\ readfile_of (world (snd (createChecksumFile p s))) (p +:+ ".sha512")
     = Ok (bytes_of_string text)
  /\ string_of_bytes (bytes_of_string text) = text
  /\ length (sha512.Sum512 data) = 64%nat
  /\ String.length text = 128%nat
  /\ all_chars is_lower_hex text = true.
Proof.
  intros Hopen Hread Hstat Hnone Hwrite text.
  rewrite (createChecksumFile_created s p file data serr
             Hopen Hread Hstat Hnone Hwrite).
  cbn [fst snd]. split; [reflexivity|].
  split; [apply readfile_of_written_eq|].
  split; [apply bytes_string_roundtrip|].
  split; [apply Sum512_length|].
  split; [apply sidecar_text_length|apply sidecar_text_lower_hex].
Qed.

(** C8.  Every outcome of [verify] and of [create] carries one status,
    and its error is non-nil exactly when the status is one of [Locked],
    [CheckingFailed] (verify) or [LockedCreation], [Failed] (create); the
    outcomes [Match], [NotMatch], [NotFound], [Created] and [Existing]
    carry no error. *)
Theorem outcome_status_error_consistent (s : State) (p : string) :
  let v := fst (checkChecksumFile p s) in
  let c := fst (createChecksumFile p s) in
  (Error v <> None <-> Status v = LockedVerification \/ Status v = CheckingFailed)
  /\ (Error v = None <-> Status v = Match \/ Status v = NotMatch \/ Status v = NotFound)
  /\ (CError c <> None <-> CStatus c = LockedCreation \/ CStatus c = Failed)
  /\ (CError c = None <-> CStatus c = Created \/ CStatus c = Existing).
Proof.
  intros v c.
  destruct (check_status_error s p) as [_ Hv].
  destruct (create_status_error s p) as [_ Hc].
  fold v in Hv. fold c in Hc.
  destruct (Error v), (Status v), (CError c), (CStatus c);
    intuition (try congruence; try discriminate).
Qed.

(** C1, as the code has it.  A walk failure at a node is recorded in the
    top-level error list and ends the walk of that root there: only the
    candidates met before the node have an outcome, nothing after it in
    walk order (its siblings included) is visited, and the loop goes on
    with the next top-level path.  So it is for the check command and for
    [processPaths] with any handler. *)
Theorem walk_failure_ends_walk (s : State) (path root q : string)
    (rest : list string) (info : FileInfo) (pre post : list visit)
    (i : option FileInfo) (e : error)
    (el : ref (list error)) (h : string -> IO (option error)) :
  stat_of (world s) path = Ok info ->
  IsDir info = true ->
  filepath_Abs path = inl root ->
  root_visits (world s) root = pre ++ Visit q i (Some e) :: post ->
  Forall sound_visit pre ->
  fst (run_visits (processPaths_walkFn el h) pre (traced [SysStat path] s)) = None ->
  let walked := snd (run_visits checkCmd_walkFn pre (check_walk_start path s)) in
  let after := record_in ref_errorsChecking e (record_in ref_errorsChecking e walked) in
  checkCmd_Run (path :: rest) s = checkCmd_Run rest after
  /\ map Path (resultsCheckingChecksumFiles after) = candidates pre
  /\ In e (errorsCheckingChecksumFiles after)
  /\ processPaths (path :: rest) el h s
     = processPaths rest el h
         (record_in el e
            (record_in el e
               (snd (run_visits (processPaths_walkFn el h) pre
                       (traced [SysStat path] s))))).
Proof.
  intros Hstat Hdir Habs Hvs Hpre Hnone walked after.
  split; [|split; [|split]].
  - apply (checkCmd_Run_walk_failure path rest s info root pre q i e post);
      assumption.
  - destruct (check_pre_runs pre (check_walk_start path s) Hpre) as (_ & Hrec & _).
    exact Hrec.
  - subst after. unfold record_in at 1. cbn [load store ref_errorsChecking
      errorsCheckingChecksumFiles]. apply in_or_app. right. left. reflexivity.
  - apply (processPaths_walk_failure path rest el h s info root pre q i e post);
      assumption.
Qed.

(** C9.  Whatever the outcomes are, a walk whose nodes can all be visited
    returns no error and leaves one outcome for every candidate, in walk
    order: no status of one file keeps the next file from being
    processed.  So it is for the verification handler and for the
    creation handler. *)
Theorem outcomes_never_stop_walk (s : State) (root : string) :
  Forall sound_visit (root_visits (world s) root) ->
  let check := filepath_Walk root checkCmd_walkFn s in
  let create :=
    filepath_Walk root
      (processPaths_walkFn ref_errorsCreating
         (fun p => handleChecksumFileCreation p ref_resultsCreating)) s in
  fst check = None
  /\ map Path (resultsCheckingChecksumFiles (snd check))
     = map Path (resultsCheckingChecksumFiles s)
       ++ candidates (root_visits (world s) root)
  /\ fst create = None
  /\ map CPath (resultsCreatingChecksumFiles (snd create))
     = map CPath (resultsCreatingChecksumFiles s)
       ++ candidates (root_visits (world s) root).
Proof.
  intros Hvs check create.
  destruct (check_pre_runs _ s Hvs) as (Hnone & Hrec & _).
  destruct (run_visits_sound ref_errorsCreating
              (fun p => handleChecksumFileCreation p ref_resultsCreating)
              (fun s => map CPath (resultsCreatingChecksumFiles s))
              (root_visits (world s) root)) with (s := s)
    as [Hnone' Hrec'].
  { intros p a s0 Ha.
    destruct (handleChecksumFileCreation_run p a s0 Ha) as (? & ? & ?). auto. }
  { exact Hvs. }
  subst check create.
  rewrite (Walk_success _ root s Hnone), (Walk_success _ root s Hnone').
  cbn [fst snd]. auto.
Qed.

(** C10.  When the walk hands an error for a node to the walk function,
    the function appends it to the error list and returns it; the walk
    stops and returns it, and the caller appends it again: the error is
    twice in the list.  So it is for the check command and for
    [processPaths]. *)
Theorem walk_error_recorded_twice (s : State) (path root q : string)
    (info : FileInfo) (pre post : list visit) (i : option FileInfo) (e : error)
    (el : ref (list error)) (h : string -> IO (option error)) :
  stat_of (world s) path = Ok info ->
  IsDir info = true ->
  filepath_Abs path = inl root ->
  root_visits (world s) root = pre ++ Visit q i (Some e) :: post ->
  Forall sound_visit pre ->
  lawful el ->
  fst (run_visits (processPaths_walkFn el h) pre (traced [SysStat path] s)) = None ->
  errorsCheckingChecksumFiles (snd (checkCmd_Run [path] s))
    = errorsCheckingChecksumFiles s ++ [e; e]
  /\ load el (snd (processPaths [path] el h s))
     = load el (snd (run_visits (processPaths_walkFn el h) pre
                       (traced [SysStat path] s)))
       ++ [e; e].
Proof.
  intros Hstat Hdir Habs Hvs Hpre Hel Hnone. split.
  - rewrite (checkCmd_Run_walk_failure path [] s info root pre q i e post)
      by assumption.
    cbn [checkCmd_Run ret snd].
    rewrite (record_twice ref_errorsChecking) by (intros ? ?; reflexivity).
    destruct (check_pre_runs pre (check_walk_start path s) Hpre) as (_ & _ & Herr).
    cbn [load ref_errorsChecking]. rewrite Herr. reflexivity.
  - rewrite (processPaths_walk_failure path [] el h s info root pre q i e post)
      by assumption.
    cbn [processPaths ret snd]. apply record_twice. exact Hel.
Qed.

End Claims.

(** * The program run on concrete worlds *)

Example check_hello_scenario :
  fst (checkChecksumFile (H := plain_runtime) "/data/hello.txt" (initial w_plain))
    = VerificationResult "/data/hello.txt" NotFound None
  /\ fst (checkChecksumFile (H := plain_runtime) "/data/hello.txt" (initial w_upper))
    = VerificationResult "/data/hello.txt" Match None
  /\ fst (checkChecksumFile (H := plain_runtime) "/data/hello.txt"
            (initial (world_of [("/data/hello.txt", regular hello);
                                ("/data/hello.txt.sha512",
                                 regular (bytes_of_string "deadbeef"))])))
    = VerificationResult "/data/hello.txt" NotMatch None.
Proof. repeat split; vm_compute; reflexivity. Qed.

Example check_mixed_tree :
  let s := snd (checkCmd_Run (H := plain_runtime) ["/d"] (initial w_mixed_tree)) in
  resultsCheckingChecksumFiles s
    = [VerificationResult "/d/locked.txt" LockedVerification
         (Some (PathError "open" "/d/locked.txt" EACCES));
       VerificationResult "/d/ok.txt" Match None]
  /\ errorsCheckingChecksumFiles s = [].
Proof. split; vm_compute; reflexivity. Qed.

Example check_broken_tree :
  let s := snd (checkCmd_Run (H := plain_runtime) ["/d"] (initial w_broken_tree)) in
  resultsCheckingChecksumFiles s
    = [VerificationResult "/d/0.txt" NotFound None]
  /\ errorsCheckingChecksumFiles s
     = [PathError "lstat" "/d/a" EACCES; PathError "lstat" "/d/a" EACCES].
Proof. split; vm_compute; reflexivity. Qed.

(** ** Witnesses *)

Ltac solve_sound_visit :=
  split; [reflexivity|];
  first [ left; reflexivity | right; eexists; reflexivity ].

Lemma check_locked_before_sidecar_witness :
  let s := initial w_locked in
  let p := "/data/locked.txt" in
  let err := PathError "open" p EACCES in
  open_of (world s) p = Err err
  /\ os_IsPermission err = true
  /\ checkChecksumFile (H := plain_runtime) p s
     = (VerificationResult p LockedVerification (Some err), traced [SysOpen p] s).
Proof.
  intros s p err.
  assert (Hopen : open_of (world s) p = Err err) by (vm_compute; reflexivity).
  assert (Hperm : os_IsPermission err = true) by reflexivity.
  split; [exact Hopen|]. split; [exact Hperm|].
  exact (proj1 (check_locked_before_sidecar (H := plain_runtime) s p err Hopen Hperm)).
Defined.

Lemma check_compares_trimmed_fold_witness :
  let s := initial w_upper in
  let p := "/data/hello.txt" in
  let file := {| f_name := p; f_inode := regular hello |} in
  let content := bytes_of_string (hello_digest_upper +:+ newline) in
  open_of (world s) p = Ok file
  /\ read_of file = Ok hello
  /\ stat_of (world s) (p +:+ ".sha512") = Ok fileInfo
  /\ readfile_of (world s) (p +:+ ".sha512") = Ok content
  /\ string_lower hello_digest_upper = hex.EncodeToString (sha512.Sum512 hello)
  /\ fst (checkChecksumFile (H := plain_runtime) p s)
     = VerificationResult p Match None.
Proof.
  intros s p file content.
  assert (Hopen : open_of (world s) p = Ok file) by (vm_compute; reflexivity).
  assert (Hread : read_of file = Ok hello) by reflexivity.
  assert (Hstat : stat_of (world s) (p +:+ ".sha512") = Ok fileInfo)
    by (vm_compute; reflexivity).
  assert (Hside : readfile_of (world s) (p +:+ ".sha512") = Ok content)
    by (vm_compute; reflexivity).
  assert (Hlower : string_lower hello_digest_upper
                   = hex.EncodeToString (sha512.Sum512 hello))
    by (vm_compute; reflexivity).
  repeat (split; [assumption|]).
  refine (proj2 (check_compares_trimmed_fold (H := plain_runtime) s p file hello
                   content fileInfo Hopen Hread Hstat Hside)
            EmptyString hello_digest_upper newline eq_refl eq_refl Hlower _).
  apply bytes_string_roundtrip.
Defined.

Lemma create_then_check_match_witness :
  let s := initial w_plain in
  let p := "/data/hello.txt" in
  files (world s) !! p = Some (regular hello)
  /\ files (world s) !! (p +:+ ".sha512") = None
  /\ CStatus (fst (createChecksumFile p s)) = Created
  /\ fst (checkChecksumFile (H := plain_runtime) p
            (snd (createChecksumFile p s)))
     = VerificationResult p Match None.
Proof.
  intros s p.
  assert (Hfile : files (world s) !! p = Some (regular hello))
    by (vm_compute; reflexivity).
  assert (Hside : files (world s) !! (p +:+ ".sha512") = None)
    by (vm_compute; reflexivity).
  assert (Hcreated : CStatus (fst (createChecksumFile p s)) = Created)
    by (vm_compute; reflexivity).
  repeat (split; [assumption|]).
  exact (proj1 (create_then_check_match (H := plain_runtime) s p (regular hello)
                  hello Hfile eq_refl Hside Hcreated)).
Defined.

Lemma create_existing_untouched_witness :
  let s := initial w_existing in
  let p := "/data/data.txt" in
  open_of (world s) p = Err (PathError "open" p EACCES)
  /\ stat_of (world s) (p +:+ ".sha512") = Ok fileInfo
  /\ fst (createChecksumFile p s)
     = CreationResult p Existing None
  /\ files (world (snd (createChecksumFile p s)))
     = files (world s).
Proof.
  intros s p.
  assert (Hstat : stat_of (world s) (p +:+ ".sha512") = Ok fileInfo)
    by (vm_compute; reflexivity).
  split; [vm_compute; reflexivity|]. split; [exact Hstat|].
  destruct (create_existing_untouched s p fileInfo Hstat)
    as (Hres & Hfiles & _).
  split; [exact Hres|exact Hfiles].
Defined.

Lemma check_not_found_when_opened_witness :
  let s := initial w_plain in
  let p := "/data/hello.txt" in
  let file := {| f_name := p; f_inode := regular hello |} in
  let serr := PathError "stat" (p +:+ ".sha512") ENOENT in
  open_of (world s) p = Ok file
  /\ stat_of (world s) (p +:+ ".sha512") = Err serr
  /\ errors_Is_ErrNotExist serr = true
  /\ checkChecksumFile (H := plain_runtime) p s
     = (VerificationResult p NotFound None,
        traced [SysOpen p; SysStat (p +:+ ".sha512"); SysClose p] s).
Proof.
  intros s p file serr.
  assert (Hopen : open_of (world s) p = Ok file) by (vm_compute; reflexivity).
  assert (Hstat : stat_of (world s) (p +:+ ".sha512") = Err serr)
    by (vm_compute; reflexivity).
  assert (Hnone : errors_Is_ErrNotExist serr = true) by reflexivity.
  repeat (split; [assumption|]).
  exact (proj1 (check_not_found_when_opened (H := plain_runtime) s p file serr
                  Hopen Hstat) Hnone).
Defined.

(** The other branch of C6: the data file opens and there is no sidecar,
    but the sidecar name is too long for a lookup; the outcome is
    [CheckingFailed] with the error of the stat. *)
Example check_long_name :
  let s := initial w_long_name in
  let p := long_name in
  files (world s) !! (p +:+ ".sha512") = None
  /\ fst (checkChecksumFile (H := plain_runtime) p s)
     = VerificationResult p CheckingFailed
         (Some (PathError "stat" (p +:+ ".sha512") ENAMETOOLONG)).
Proof. split; vm_compute; reflexivity. Qed.

Lemma create_writes_hex_digest_witness :
  let s := initial w_plain in
  let p := "/data/hello.txt" in
  let file := {| f_name := p; f_inode := regular hello |} in
  let serr := PathError "stat" (p +:+ ".sha512") ENOENT in
  open_of (world s) p = Ok file
  /\ read_of file = Ok hello
  /\ stat_of (world s) (p +:+ ".sha512") = Err serr
  /\ errors_Is_ErrNotExist serr = true
  /\ write_err (world s) !! (p +:+ ".sha512") = None
  /\ fst (createChecksumFile p s) = CreationResult p Created None
  /\ readfile_of (world (snd (createChecksumFile p s)))
       (p +:+ ".sha512")
     = Ok (bytes_of_string (hex.EncodeToString (sha512.Sum512 hello))).
Proof.
  intros s p file serr.
  assert (Hopen : open_of (world s) p = Ok file) by (vm_compute; reflexivity).
  assert (Hread : read_of file = Ok hello) by reflexivity.
  assert (Hstat : stat_of (world s) (p +:+ ".sha512") = Err serr)
    by (vm_compute; reflexivity).
  assert (Hnone : errors_Is_ErrNotExist serr = true) by reflexivity.
  assert (Hwrite : write_err (world s) !! (p +:+ ".sha512") = None)
    by (vm_compute; reflexivity).
  repeat (split; [assumption|]).
  destruct (create_writes_hex_digest s p file hello serr
              Hopen Hread Hstat Hnone Hwrite) as (Hres & Hsidecar & _).
  split; [exact Hres|exact Hsidecar].
Defined.

Lemma walk_failure_ends_walk_witness :
  let s := initial w_broken_tree in
  let e := PathError "lstat" "/d/a" EACCES in
  let pre := [Visit "/d" (Some dirInfo) None; Visit "/d/0.txt" (Some fileInfo) None] in
  let post := [Visit "/d/b.txt" (Some fileInfo) None] in
  let fn := processPaths_walkFn ref_errorsCreating (creation_handler (H := plain_runtime)) in
  let after :=
    record_in ref_errorsChecking e
      (record_in ref_errorsChecking e
         (snd (run_visits (checkCmd_walkFn (H := plain_runtime)) pre
                 (check_walk_start "/d" s)))) in
  stat_of (world s) "/d" = Ok dirInfo
  /\ root_visits (world s) "/d" = pre ++ Visit "/d/a" None (Some e) :: post
  /\ Forall (sound_visit (H := plain_runtime)) pre
  /\ fst (run_visits fn pre (traced [SysStat "/d"] s)) = None
  /\ checkCmd_Run (H := plain_runtime) ["/d"; "/data/hello.txt"] s
     = checkCmd_Run (H := plain_runtime) ["/data/hello.txt"] after
  /\ map Path (resultsCheckingChecksumFiles after)
     = candidates (H := plain_runtime) pre.
Proof.
  intros s e pre post fn after.
  assert (Hstat : stat_of (world s) "/d" = Ok dirInfo) by (vm_compute; reflexivity).
  assert (Hvs : root_visits (world s) "/d" = pre ++ Visit "/d/a" None (Some e) :: post)
    by (vm_compute; reflexivity).
  assert (Hpre : Forall (sound_visit (H := plain_runtime)) pre).
  { repeat (constructor; [solve_sound_visit|]). constructor. }
  assert (Hnone : fst (run_visits fn pre (traced [SysStat "/d"] s)) = None)
    by (vm_compute; reflexivity).
  repeat (split; [assumption|]).
  destruct (walk_failure_ends_walk (H := plain_runtime) s "/d" "/d" "/d/a"
              ["/data/hello.txt"] dirInfo pre post None e ref_errorsCreating
              (creation_handler (H := plain_runtime))
              Hstat eq_refl eq_refl Hvs Hpre Hnone) as (Hrun & Hres & _).
  split; [exact Hrun|exact Hres].
Defined.

Lemma outcomes_never_stop_walk_witness :
  let s := initial w_mixed_tree in
  Forall (sound_visit (H := plain_runtime)) (root_visits (world s) "/d")
  /\ fst (filepath_Walk "/d" (checkCmd_walkFn (H := plain_runtime)) s) = None
  /\ map Path (resultsCheckingChecksumFiles
                 (snd (filepath_Walk "/d" (checkCmd_walkFn (H := plain_runtime)) s)))
     = map Path (resultsCheckingChecksumFiles s)
       ++ candidates (H := plain_runtime) (root_visits (world s) "/d").
Proof.
  intros s.
  assert (Hvs : Forall (sound_visit (H := plain_runtime)) (root_visits (world s) "/d")).
  { assert (E : root_visits (world s) "/d"
                = [Visit "/d" (Some dirInfo) None;
                   Visit "/d/locked.txt" (Some fileInfo) None;
                   Visit "/d/ok.txt" (Some fileInfo) None;
                   Visit "/d/ok.txt.sha512" (Some fileInfo) None])
      by (vm_compute; reflexivity).
    rewrite E.
    repeat (constructor; [solve_sound_visit|]). constructor. }
  split; [exact Hvs|].
  destruct (outcomes_never_stop_walk (H := plain_runtime) s "/d" Hvs)
    as (Hnone & Hres & _).
  split; [exact Hnone|exact Hres].
Defined.

Lemma walk_error_recorded_twice_witness :
  let s := initial w_broken_tree in
  let e := PathError "lstat" "/d/a" EACCES in
  let pre := [Visit "/d" (Some dirInfo) None; Visit "/d/0.txt" (Some fileInfo) None] in
  let post := [Visit "/d/b.txt" (Some fileInfo) None] in
  let h := creation_handler (H := plain_runtime) in
  let fn := processPaths_walkFn ref_errorsCreating h in
  stat_of (world s) "/d" = Ok dirInfo
  /\ root_visits (world s) "/d" = pre ++ Visit "/d/a" None (Some e) :: post
  /\ Forall (sound_visit (H := plain_runtime)) pre
  /\ lawful ref_errorsCreating
  /\ fst (run_visits fn pre (traced [SysStat "/d"] s)) = None
  /\ errorsCheckingChecksumFiles (snd (checkCmd_Run (H := plain_runtime) ["/d"] s))
     = errorsCheckingChecksumFiles s ++ [e; e]
  /\ errorsCreatingChecksumFiles
       (snd (processPaths (H := plain_runtime) ["/d"] ref_errorsCreating h s))
     = errorsCreatingChecksumFiles (snd (run_visits fn pre (traced [SysStat "/d"] s)))
       ++ [e; e].
Proof.
  intros s e pre post h fn.
  assert (Hstat : stat_of (world s) "/d" = Ok dirInfo) by (vm_compute; reflexivity).
  assert (Hvs : root_visits (world s) "/d" = pre ++ Visit "/d/a" None (Some e) :: post)
    by (vm_compute; reflexivity).
  assert (Hpre : Forall (sound_visit (H := plain_runtime)) pre).
  { repeat (constructor; [solve_sound_visit|]). constructor. }
  assert (Hel : lawful ref_errorsCreating) by (intros v s0; reflexivity).
  assert (Hnone : fst (run_visits fn pre (traced [SysStat "/d"] s)) = None)
    by (vm_compute; reflexivity).
  repeat (split; [assumption|]).
  exact (walk_error_recorded_twice (H := plain_runtime) s "/d" "/d" "/d/a" dirInfo
           pre post None e ref_errorsCreating h
           Hstat eq_refl eq_refl Hvs Hpre Hel Hnone).
Defined.

(** ** Counterexamples *)

(** C1 as stated fails: after the entry that cannot be lstat-ed, the
    sibling [/d/b.txt] is a candidate and gets no outcome. *)
Lemma siblings_walked_fails :
  ~ siblings_walked (H := plain_runtime) (initial w_broken_tree) "/d".
Proof.
  intros Hc. specialize (Hc "/d/b.txt").
  assert (Hin : In "/d/b.txt"
                  (candidates (H := plain_runtime)
                     (root_visits (world (initial w_broken_tree)) "/d")))
    by (vm_compute; right; left; reflexivity).
  specialize (Hc Hin). vm_compute in Hc.
  destruct Hc as [Hc|[]]. discriminate Hc.
Qed.

(** C3 as stated fails: the data file reads and the sidecar exists, but
    the sidecar cannot be read, and the outcome is [CheckingFailed] with
    an error. *)
Lemma sidecar_decides_fails :
  ~ sidecar_decides (H := plain_runtime) (initial w_sidecar_locked) "/data/hello.txt".
Proof.
  intros Hc.
  specialize (Hc {| f_name := "/data/hello.txt"; f_inode := regular hello |} hello
                 (unreadable (bytes_of_string hello_digest_upper)) fileInfo).
  assert (Hopen : open_of (world (initial w_sidecar_locked)) "/data/hello.txt"
                  = Ok {| f_name := "/data/hello.txt"; f_inode := regular hello |})
    by (vm_compute; reflexivity).
  assert (Hside : files (world (initial w_sidecar_locked))
                    !! ("/data/hello.txt" +:+ ".sha512")
                  = Some (unreadable (bytes_of_string hello_digest_upper)))
    by (vm_compute; reflexivity).
  assert (Hstat : stat_of (world (initial w_sidecar_locked))
                    ("/data/hello.txt" +:+ ".sha512") = Ok fileInfo)
    by (vm_compute; reflexivity).
  specialize (Hc Hopen eq_refl Hside Hstat). vm_compute in Hc. discriminate Hc.
Qed.

(** C4 as stated fails: for a data file of mode 000 with no sidecar,
    [create] makes no sidecar and [verify] after it is [Locked], not
    [Match]. *)
Lemma round_trip_fails :
  ~ round_trip (H := plain_runtime) (initial w_locked) "/data/locked.txt".
Proof.
  intros Hc.
  specialize (Hc (unreadable (bytes_of_string "secret"))).
  assert (Hfile : files (world (initial w_locked)) !! "/data/locked.txt"
                  = Some (unreadable (bytes_of_string "secret")))
    by (vm_compute; reflexivity).
  assert (Hside : files (world (initial w_locked)) !! ("/data/locked.txt" +:+ ".sha512")
                  = None)
    by (vm_compute; reflexivity).
  specialize (Hc Hfile Hside). vm_compute in Hc. discriminate Hc.
Qed.

(** C6 as stated fails: a file of mode 000 with no sidecar is [Locked],
    not [NotFound]. *)
Lemma absent_sidecar_not_found_fails :
  ~ absent_sidecar_not_found (H := plain_runtime) (initial w_locked) "/data/locked.txt".
Proof.
  intros Hc.
  specialize (Hc (unreadable (bytes_of_string "secret"))).
  assert (Hfile : files (world (initial w_locked)) !! "/data/locked.txt"
                  = Some (unreadable (bytes_of_string "secret")))
    by (vm_compute; reflexivity).
  assert (Hside : files (world (initial w_locked)) !! ("/data/locked.txt" +:+ ".sha512")
                  = None)
    by (vm_compute; reflexivity).
  specialize (Hc Hfile Hside). vm_compute in Hc. discriminate Hc.
Qed.

(** C7 as stated fails: on a read-only file system the readable file
    with no sidecar gets [Failed], and no sidecar. *)
Lemma readable_gets_sidecar_fails :
  ~ readable_gets_sidecar (initial w_readonly) "/data/hello.txt".
Proof.
  intros Hc.
  specialize (Hc {| f_name := "/data/hello.txt"; f_inode := regular hello |} hello).
  assert (Hopen : open_of (world (initial w_readonly)) "/data/hello.txt"
                  = Ok {| f_name := "/data/hello.txt"; f_inode := regular hello |})
    by (vm_compute; reflexivity).
  assert (Hside : files (world (initial w_readonly)) !! ("/data/hello.txt" +:+ ".sha512")
                  = None)
    by (vm_compute; reflexivity).
  destruct (Hc Hopen eq_refl Hside) as [Hres _].
  vm_compute in Hres. discriminate Hres.
Qed.

(** * More of the code: properties *)

(** ** The verification classifier, the other paths *)

Section VerificationPaths.
Context `{GoRuntime}.

(** X1.  When the data file cannot be opened for a reason other than
    permissions (it does not exist, say), [verify] answers
    [CheckingFailed] with the error of the open after that one call: the
    sidecar is not looked at, so an orphan sidecar changes nothing. *)
Theorem check_open_failure (s : State) (p : string) (err : error) :
  open_of (world s) p = Err err ->
  os_IsPermission err = false ->
  checkChecksumFile p s
    = (VerificationResult p CheckingFailed (Some err), traced [SysOpen p] s).
Proof.
  intros Hopen Hperm. unfold checkChecksumFile. io_run.
  rewrite Hopen, Hperm. reflexivity.
Qed.

(** X2.  The file opened at the start is closed on every path out of
    [verify]: after a successful open the calls are the open, then only
    the stat of the sidecar, the read of the data and the read of the
    sidecar, then the close, which comes last and once. *)
Theorem check_releases_handle (s : State) (p : string) (file : File) :
  open_of (world s) p = Ok file ->
  exists cs,
    trace (world (snd (checkChecksumFile p s)))
    = trace (world s) ++ [SysOpen p] ++ cs ++ [SysClose p]
    /\ Forall (fun c => c = SysStat (p +:+ ".sha512") \/ c = SysRead p
                        \/ c = SysReadFile (p +:+ ".sha512")) cs.
Proof.
  intros Hopen. unfold checkChecksumFile, defer. io_run. rewrite Hopen. io_run.
  case_branches; rewrite ?(open_of_name _ _ _ Hopen);
    cbn [snd world traced set_world trace].
  all: match goal with
       | |- exists cs, _ ++ [_; ?a; _] = _ /\ _ => exists [a]
       | |- exists cs, _ ++ [_; ?a; ?b; _] = _ /\ _ => exists [a; b]
       | |- exists cs, _ ++ [_; ?a; ?b; ?c; _] = _ /\ _ => exists [a; b; c]
       end.
  all: split; [reflexivity|repeat (constructor; [solve [auto]|]); constructor].
Qed.

(** X4.  An error in an outcome of [verify] is always the error of the
    call that failed, unchanged: the open of the data file, the stat of
    the sidecar, the read of the data file or the read of the sidecar. *)
Theorem check_error_is_failing_call (s : State) (p : string) (e : error) :
  Error (fst (checkChecksumFile p s)) = Some e ->
  open_of (world s) p = Err e
  \/ stat_of (world s) (p +:+ ".sha512") = Err e
  \/ (exists file, open_of (world s) p = Ok file /\ read_of file = Err e)
  \/ readfile_of (world s) (p +:+ ".sha512") = Err e.
Proof.
  unfold checkChecksumFile, defer. io_run.
  destruct (open_of (world s) p) as [file|err] eqn:Hopen; io_run.
  2:{ destruct (os_IsPermission err); cbn; intros [= <-]; auto. }
  destruct (stat_of (world s) (p +:+ ".sha512")) as [info|err] eqn:Hstat; io_run.
  2:{ destruct (errors_Is_ErrNotExist err); io_run; cbn; [discriminate|].
      intros [= <-]; auto. }
  destruct (read_of file) as [data|err] eqn:Hread; io_run.
  2:{ cbn. intros [= <-]. right. right. left. eauto. }
  destruct (readfile_of (world s) (p +:+ ".sha512")) as [content|err] eqn:Hside;
    io_run.
  2:{ cbn. intros [= <-]. auto. }
  destruct (strings_EqualFold _ _); io_run; discriminate.
Qed.

End VerificationPaths.

(** ** Case folding and trimming on ASCII text *)

Lemma code_inj a b : code a = code b -> a = b.
Proof.
  unfold code. intros E. apply N2Z.inj in E.
  rewrite <- (ascii_N_embedding a), <- (ascii_N_embedding b), E. reflexivity.
Qed.

Lemma code_range c : 0 <= code c < 256.
Proof.
  unfold code. pose proof (N_ascii_bounded c) as Hb. lia.
Qed.

Lemma lor_below_RuneSelf a b :
  0 <= a < 128 -> 0 <= b < 128 -> Z.lor a b < 128.
Proof.
  intros Ha Hb.
  destruct (Z.eq_dec (Z.lor a b) 0) as [E|E]; [lia|].
  assert (Hnn : 0 <= Z.lor a b) by (apply Z.lor_nonneg; lia).
  change 128 with (2 ^ 7). apply Z.log2_lt_pow2; [lia|].
  rewrite Z.log2_lor by lia.
  assert (La : Z.log2 a < 7).
  { destruct (Z.eq_dec a 0) as [->|]; [reflexivity|].
    apply Z.log2_lt_pow2; [lia|]. change (2 ^ 7) with 128. lia. }
  assert (Lb : Z.log2 b < 7).
  { destruct (Z.eq_dec b 0) as [->|]; [reflexivity|].
    apply Z.log2_lt_pow2; [lia|]. change (2 ^ 7) with 128. lia. }
  lia.
Qed.

Lemma ascii_lower_code t :
  code (ascii_lower t)
  = if (65 <=? code t) && (code t <=? 90) then code t + 32 else code t.
Proof.
  unfold ascii_lower. pose proof (code_range t) as Ht.
  destruct ((65 <=? code t) && (code t <=? 90)) eqn:E; [|reflexivity].
  unfold code at 1. rewrite N_ascii_embedding.
  - rewrite Z2N.id by lia. reflexivity.
  - apply andb_prop in E as [E1 E2].
    change 256%N with (Z.to_N 256). apply Z2N.inj_lt; lia.
Qed.

Section FoldFacts.
Context `{GoRuntime}.

(** On ASCII text [EqualFold] with a string of lowercase hex digits holds
    exactly when the text, lower-cased, is that string. *)
Lemma EqualFold_lower_hex_iff h t :
  all_chars is_lower_hex h = true ->
  all_chars is_ascii t = true ->
  strings_EqualFold h t = true <-> string_lower t = h.
Proof.
  intros Hh Ht. split; [|apply EqualFold_lower_hex; exact Hh].
  revert t Ht. induction h as [|c h IH]; intros [|tc t] Ht; simpl; try discriminate;
    [reflexivity|].
  simpl in Hh, Ht. apply andb_prop in Hh as [Hc Hh]. apply andb_prop in Ht as [Htc Ht].
  pose proof (code_range c) as Rc. pose proof (code_range tc) as Rtc.
  assert (Hcl : code c < 128) by (unfold is_lower_hex in Hc; lia).
  assert (Htl : code tc < 128) by (unfold is_ascii, RuneSelf in Htc; lia).
  pose proof (lor_below_RuneSelf (code c) (code tc)) as Hlor.
  assert (Hrs : (RuneSelf <=? Z.lor (code c) (code tc)) = false)
    by (unfold RuneSelf; lia).
  rewrite Hrs.
  assert (Hlow : forall x, code x = code c -> x = c)
    by (intros x Hx; apply code_inj; exact Hx).
  destruct (code tc =? code c) eqn:Heq.
  - intros Hrest. f_equal; [|apply IH; assumption].
    apply code_inj. rewrite ascii_lower_code.
    unfold is_lower_hex in Hc.
    destruct ((65 <=? code tc) && (code tc <=? 90)) eqn:E; lia.
  - destruct ((65 <=? Z.min (code c) (code tc)) && (Z.min (code c) (code tc) <=? 90)
              && (Z.max (code c) (code tc) =? Z.min (code c) (code tc) + 32)) eqn:E;
      [|discriminate].
    intros Hrest. f_equal; [|apply IH; assumption].
    apply code_inj. rewrite ascii_lower_code.
    unfold is_lower_hex in Hc.
    destruct ((65 <=? code tc) && (code tc <=? 90)) eqn:E'; lia.
Qed.

Lemma trim_start_ascii s :
  all_chars is_ascii s = true ->
  exists rest, trim_start s = inl rest /\ all_chars is_ascii rest = true.
Proof.
  induction s as [|c s IH]; simpl; [eauto|].
  intros [Hc Hs]%andb_prop. unfold is_ascii in Hc. apply negb_true_iff in Hc.
  rewrite Hc. destruct (asciiSpace c); [auto|].
  exists (String c s). simpl. rewrite Hs. unfold is_ascii. rewrite Hc. auto.
Qed.

Lemma trim_stop_ascii r :
  forallb is_ascii r = true ->
  exists r', trim_stop r = inl r' /\ forallb is_ascii r' = true.
Proof.
  induction r as [|c r IH]; simpl; [eauto|].
  intros [Hc Hr]%andb_prop. unfold is_ascii in Hc. apply negb_true_iff in Hc.
  rewrite Hc. destruct (asciiSpace c); [auto|].
  exists (c :: r). simpl. rewrite Hr. unfold is_ascii. rewrite Hc. auto.
Qed.

Lemma all_chars_of_list P l :
  all_chars P (string_of_list_ascii l) = forallb P l.
Proof. induction l as [|c l IH]; simpl; [reflexivity|]. rewrite IH. reflexivity. Qed.

Lemma forallb_rev {A} (P : A -> bool) l : forallb P (rev l) = forallb P l.
Proof.
  induction l as [|x l IH]; simpl; [reflexivity|].
  rewrite forallb_app, IH. simpl. rewrite andb_true_r, andb_comm. reflexivity.
Qed.

(** Trimming ASCII text stays on the ASCII path and gives ASCII text. *)
Lemma TrimSpace_ascii s :
  all_chars is_ascii s = true ->
  all_chars is_ascii (strings_TrimSpace s) = true.
Proof.
  intros Hs. unfold strings_TrimSpace.
  destruct (trim_start_ascii s Hs) as (rest & -> & Hrest).
  destruct (trim_stop_ascii (rev (list_ascii_of_string rest))) as (r & -> & Hr).
  { rewrite forallb_rev, <- all_chars_list. exact Hrest. }
  unfold unrev. rewrite all_chars_of_list, forallb_rev. exact Hr.
Qed.

End FoldFacts.

Section VerificationMatch.
Context `{GoRuntime}.

(** X3.  For a sidecar of ASCII bytes (and a data file and sidecar that
    can be read), [verify] answers [Match] exactly when the trimmed text
    of the sidecar, lower-cased, is the hex digest of the data, and
    [NotMatch] otherwise; there is no error either way. *)
Theorem check_match_iff_lower (s : State) (p : string) (file : File)
    (data content : list byte) (info : FileInfo) :
  open_of (world s) p = Ok file ->
  read_of file = Ok data ->
  stat_of (world s) (p +:+ ".sha512") = Ok info ->
  readfile_of (world s) (p +:+ ".sha512") = Ok content ->
  all_chars is_ascii (string_of_bytes content) = true ->
  let text := strings_TrimSpace (string_of_bytes content) in
  let r := fst (checkChecksumFile p s) in
  (Status r = Match <-> string_lower text = sidecar_text data)
  /\ (Status r = NotMatch <-> string_lower text <> sidecar_text data)
  /\ Error r = None.
Proof.
  intros Hopen Hread Hstat Hside Hascii text r. subst r.
  rewrite (checkChecksumFile_compares s p file data content info) by assumption.
  cbn [fst Status Error].
  pose proof (EqualFold_lower_hex_iff (sidecar_text data) text
                (sidecar_text_lower_hex data) (TrimSpace_ascii _ Hascii)) as Hiff.
  unfold sidecar_text in *. fold text.
  destruct (strings_EqualFold _ text) eqn:E.
  - split; [|split]; [tauto| |reflexivity].
    split; [discriminate|]. intros Hne. exfalso. apply Hne. apply Hiff. reflexivity.
  - split; [|split]; [| |reflexivity].
    + split; [discriminate|]. intros Heq. apply Hiff in Heq. discriminate.
    + split; [|reflexivity]. intros _ Heq. apply Hiff in Heq. discriminate.
Qed.

End VerificationMatch.

(** ** What a check run keeps *)

Section Keeps.
Variable R : State -> State -> Prop.
Hypothesis R_refl : forall s, R s s.
Hypothesis R_trans : forall a b c, R a b -> R b c -> R a c.

Lemma bind_keeps {A B} (m : IO A) (k : A -> IO B) s :
  R s (snd (m s)) ->
  (forall a s', R s' (snd (k a s'))) ->
  R s (snd (bind m k s)).
Proof.
  intros Hm Hk. rewrite run_bind. eapply R_trans; [exact Hm|apply Hk].
Qed.

(** A relation kept by every call of the walk function is kept by the
    walk, whatever the tree and whatever the calls return. *)
Lemma walk_keeps fn :
  (forall p i e s, R s (snd (fn p i e s))) ->
  forall n path s, R s (snd (walk path n fn s)).
Proof.
  intros Hfn.
  induction n as [e| |op e|entries IH] using wnode_nested_ind; intros path s;
    try apply Hfn.
  cbn [walk]. apply bind_keeps; [apply Hfn|].
  intros [e|] s1; [apply R_refl|]. clear s.
  revert s1. induction IH as [|[name c] rest Hc _ IHrest]; intros s; [apply R_refl|].
  apply bind_keeps; [apply Hc|].
  intros [e|] s'; [|apply IHrest].
  destruct (stops c e); [apply R_refl|apply IHrest].
Qed.

Lemma Walk_keeps fn root s :
  (forall p i e s, R s (snd (fn p i e s))) ->
  R s (snd (filepath_Walk root fn s)).
Proof.
  intros Hfn. unfold filepath_Walk. apply bind_keeps; [apply R_refl|].
  intros w s1. apply bind_keeps.
  - destruct (listing w !! root); [apply walk_keeps; exact Hfn|apply Hfn].
  - intros [e|] s2; [|apply R_refl].
    destruct (is_SkipDir e || is_SkipAll e); apply R_refl.
Qed.

Context `{GoRuntime}.
Hypothesis R_traced_stat : forall p s, R s (traced [SysStat p] s).
Hypothesis R_reset : forall s, R s (store ref_resultsChecking [] s).
Hypothesis R_errors : forall e s, R s (record_in ref_errorsChecking e s).
Hypothesis R_check : forall a s,
  String.eqb (filepath_Ext a) ".sha512" = false ->
  R s (record_in ref_resultsChecking (fst (checkChecksumFile a s))
         (snd (checkChecksumFile a s))).

Lemma handleChecksumFileVerification_keeps p s :
  R s (snd (handleChecksumFileVerification p ref_resultsChecking s)).
Proof.
  unfold handleChecksumFileVerification.
  destruct (abs_result p) as [a|e]; [|apply R_refl].
  destruct (String.eqb _ _) eqn:Hext; [apply R_refl|].
  rewrite !run_bind. cbn [append_to ret fst snd]. apply R_check. exact Hext.
Qed.

Lemma checkCmd_walkFn_keeps p i e s :
  R s (snd (checkCmd_walkFn p i e s)).
Proof.
  unfold checkCmd_walkFn. destruct e as [e|].
  - apply bind_keeps; [apply R_errors|]. intros _ s1. apply R_refl.
  - destruct i as [info|]; [|apply R_refl].
    destruct (IsDir info); [apply R_refl|apply handleChecksumFileVerification_keeps].
Qed.

Lemma checkCmd_Run_keeps args : forall s, R s (snd (checkCmd_Run args s)).
Proof.
  induction args as [|path rest IH]; intros s; [apply R_refl|].
  cbn [checkCmd_Run]. apply bind_keeps; [apply R_traced_stat|].
  intros [info|err] s1.
  2:{ apply bind_keeps; [apply R_errors|]. intros _ s2. apply IH. }
  apply bind_keeps; [apply R_reset|]. intros _ s2.
  destruct (IsDir info).
  - destruct (abs_result path) as [root|err]; [|apply R_errors].
    apply bind_keeps.
    + apply Walk_keeps. apply checkCmd_walkFn_keeps.
    + intros [e|] s3; (apply bind_keeps; [|intros _ s4; apply IH]);
        [apply R_errors|apply R_refl].
  - destruct (abs_result path) as [a|err].
    2:{ apply bind_keeps; [apply R_errors|]. intros _ s3. apply IH. }
    destruct (String.eqb _ _).
    + apply bind_keeps; [apply R_errors|]. intros _ s3. apply IH.
    + apply bind_keeps; [apply handleChecksumFileVerification_keeps|].
      intros _ s3. apply IH.
Qed.

End Keeps.

Lemma reads_only_refl s : reads_only s s.
Proof.
  repeat split. exists []. rewrite app_nil_r. auto.
Qed.

Lemma reads_only_trans a b c : reads_only a b -> reads_only b c -> reads_only a c.
Proof.
  intros (F1 & W1 & L1 & cs1 & T1 & N1) (F2 & W2 & L2 & cs2 & T2 & N2).
  repeat split; try congruence.
  exists (cs1 ++ cs2). rewrite T2, T1, app_assoc, forallb_app, N1, N2. auto.
Qed.

Lemma reads_only_traced cs s :
  forallb (fun c => negb (is_write c)) cs = true -> reads_only s (traced cs s).
Proof. intros Hcs. repeat split. exists cs. auto. Qed.




Section CheckRun.
Context `{GoRuntime}.

Lemma checkChecksumFile_traced p s :
  exists cs,
    snd (checkChecksumFile p s) = traced cs s
    /\ forallb (fun c => negb (is_write c)) cs = true.
Proof.
  unfold checkChecksumFile, defer. io_run.
  case_branches; eexists; split; reflexivity.
Qed.

(** X5.  A check run reads and never writes: whatever the arguments and
    the state of the file system, no file, write fault or listing
    changes, and no call recorded during the run is a write. *)
Theorem check_run_reads_only (args : list string) (s : State) :
  reads_only s (snd (checkCmd_Run args s)).
Proof.
  apply (checkCmd_Run_keeps reads_only reads_only_refl reads_only_trans).
  - intros p s0. apply reads_only_traced. reflexivity.
  - intros s0. repeat split. exists []. rewrite app_nil_r. auto.
  - intros e s0. repeat split. exists []. rewrite app_nil_r. auto.
  - intros p s0 _. destruct (checkChecksumFile_traced p s0) as (cs & -> & Hcs).
    apply (reads_only_traced cs s0 Hcs).
Qed.


(** X23.  Every result a check run records is a sound outcome: its path
    is not a sidecar name, and it carries an error exactly when its
    status is [Locked] or [CheckingFailed].  So the summary never lists a
    sidecar and never shows a failed file without its error. *)
Theorem check_run_results_sound (args : list string) (s : State) :
  Forall sound_result (resultsCheckingChecksumFiles s) ->
  Forall sound_result (resultsCheckingChecksumFiles (snd (checkCmd_Run args s))).
Proof.
  apply (checkCmd_Run_keeps
           (fun s s' => Forall sound_result (resultsCheckingChecksumFiles s) ->
                        Forall sound_result (resultsCheckingChecksumFiles s'))).
  - auto.
  - auto.
  - intros p s0 Hs. exact Hs.
  - intros s0 _. constructor.
  - intros e s0 Hs. exact Hs.
  - intros a s0 Hext Hs.
    destruct (check_status_error s0 a) as [Hpath Herr]. cbn zeta in Hpath, Herr.
    destruct (checkChecksumFile_traced a s0) as (cs & Hcs & _).
    destruct (checkChecksumFile a s0) as [r s1]. cbn [fst snd] in *. subst s1.
    unfold record_in. cbn. apply Forall_app. split; [exact Hs|].
    constructor; [|constructor]. split; [rewrite Hpath; exact Hext|exact Herr].
Qed.

End CheckRun.

(** ** Sidecar names *)

Lemma Ext_of_sidecar q : filepath_Ext (q +:+ ".sha512") = ".sha512".
Proof.
  unfold filepath_Ext. rewrite list_ascii_app, rev_app_distr. reflexivity.
Qed.

Lemma ext_scan_spec r : forall acc,
  (ext_scan r acc = ""
   /\ forall pre post, r = pre ++ "."%char :: post -> In "/"%char pre)
  \/ (exists pre post,
        r = pre ++ "."%char :: post
        /\ ~ In "."%char pre /\ ~ In "/"%char pre
        /\ ext_scan r acc = string_of_list_ascii ("."%char :: rev pre ++ acc)).
Proof.
  induction r as [|c r IH]; intros acc.
  - left. split; [reflexivity|]. intros [|? ?] post E; discriminate.
  - cbn [ext_scan]. destruct (Ascii.eqb c "/") eqn:Eslash.
    + apply Ascii.eqb_eq in Eslash. subst c. left. split; [reflexivity|].
      intros [|x pre] post E; [discriminate|]. injection E as <- _. left. reflexivity.
    + destruct (Ascii.eqb c ".") eqn:Edot.
      * apply Ascii.eqb_eq in Edot. subst c. right. exists [], r.
        repeat split; auto.
      * apply Ascii.eqb_neq in Eslash, Edot.
        destruct (IH (c :: acc)) as [[E Hall]|(pre & post & -> & Hd & Hs & E)].
        -- left. split; [exact E|]. intros [|x pre] post Er.
           ++ injection Er as -> _. congruence.
           ++ injection Er as <- Er. right. eapply Hall. exact Er.
        -- right. exists (c :: pre), post. repeat split.
           ++ intros [E'|E']; [congruence|auto].
           ++ intros [E'|E']; [congruence|auto].
           ++ rewrite E. cbn [rev]. rewrite <- app_assoc. reflexivity.
Qed.

Lemma has_prefix_list_app p l : has_prefix_list p (p ++ l) = true.
Proof.
  induction p as [|a p IH]; simpl; [reflexivity|].
  rewrite IH, (proj2 (Ascii.eqb_eq a a) eq_refl). reflexivity.
Qed.

Lemma has_prefix_list_inv p l :
  has_prefix_list p l = true -> exists rest, l = p ++ rest.
Proof.
  revert l. induction p as [|a p IH]; intros l; simpl; [eauto|].
  destruct l as [|b l]; [discriminate|].
  intros [Hab Hp]%andb_prop. apply Ascii.eqb_eq in Hab. subst b.
  destruct (IH l Hp) as [rest ->]. eauto.
Qed.

Lemma string_list_inj a b :
  list_ascii_of_string a = list_ascii_of_string b -> a = b.
Proof.
  intros E. rewrite <- (string_of_list_ascii_of_string a),
              <- (string_of_list_ascii_of_string b), E. reflexivity.
Qed.

Lemma Ext_eqb_HasSuffix path :
  String.eqb (filepath_Ext path) ".sha512" = strings_HasSuffix path ".sha512".
Proof.
  destruct (strings_HasSuffix path ".sha512") eqn:Hs.
  - unfold strings_HasSuffix in Hs. apply has_prefix_list_inv in Hs as [rest Hrest].
    assert (Hp : path = string_of_list_ascii (rev rest) +:+ ".sha512").
    { apply string_list_inj.
      rewrite list_ascii_app, list_ascii_of_string_of_list_ascii.
      rewrite <- (rev_involutive (list_ascii_of_string path)), Hrest, rev_app_distr.
      rewrite rev_involutive. reflexivity. }
    rewrite Hp, Ext_of_sidecar. reflexivity.
  - apply String.eqb_neq. intros Hext.
    enough (Hq : strings_HasSuffix path ".sha512" = true) by congruence.
    unfold filepath_Ext in Hext.
    destruct (ext_scan_spec (rev (list_ascii_of_string path)) [])
      as [[E _]|(pre & post & Hr & Hd & _ & E)]; [congruence|].
    rewrite E, app_nil_r in Hext.
    apply (f_equal list_ascii_of_string) in Hext.
    rewrite list_ascii_of_string_of_list_ascii in Hext.
    unfold strings_HasSuffix. rewrite Hr.
    assert (Hpre : pre ++ ["."%char] = rev (list_ascii_of_string ".sha512")).
    { rewrite <- Hext. cbn [rev]. rewrite rev_involutive. reflexivity. }
    rewrite <- Hpre.
    change (pre ++ "."%char :: post) with (pre ++ ["."%char] ++ post).
    rewrite app_assoc. apply has_prefix_list_app.
Qed.

(** X7.  The two tests for a sidecar name agree: the extension test the
    handlers and the loops use ([filepath.Ext(path) == ".sha512"]) holds
    exactly for the paths on which the suffix test of the standard-input
    reader ([strings.HasSuffix(path, ".sha512")]) holds, which are the
    paths of the form [q.sha512]. *)
Theorem sidecar_tests_agree (path : string) :
  String.eqb (filepath_Ext path) ".sha512" = strings_HasSuffix path ".sha512"
  /\ (strings_HasSuffix path ".sha512" = true
      <-> exists q, path = q +:+ ".sha512").
Proof.
  split; [apply Ext_eqb_HasSuffix|].
  unfold strings_HasSuffix. split.
  - intros Hp. apply has_prefix_list_inv in Hp as [rest Hrest].
    exists (string_of_list_ascii (rev rest)).
    apply string_list_inj.
    rewrite list_ascii_app, list_ascii_of_string_of_list_ascii.
    rewrite <- (rev_involutive (list_ascii_of_string path)), Hrest, rev_app_distr.
    rewrite rev_involutive. reflexivity.
  - intros [q ->]. rewrite list_ascii_app, rev_app_distr.
    apply has_prefix_list_app.
Qed.

(** ** The two loops, argument by argument *)

Section LoopSteps.
Context `{GoRuntime}.

(** X8.  A sidecar met by the verification handler is passed over: for a
    path whose absolute form ends in [.sha512] the handler returns nil
    and leaves the whole state as it was (no call on the file system, no
    outcome). *)
Theorem handler_skips_sidecars (p q : string) (s : State) :
  filepath_Abs p = inl (q +:+ ".sha512") ->
  handleChecksumFileVerification p ref_resultsChecking s = (None, s).
Proof.
  intros Habs. unfold handleChecksumFileVerification, abs_result.
  rewrite Habs, Ext_of_sidecar. reflexivity.
Qed.

(** X9.  A sidecar given as a top-level argument is refused by both
    loops: the error [<absolute path> is a checksum file.] is appended to
    the error list, the file is not classified, and the loop goes on with
    the next argument. *)
Theorem sidecar_argument_refused (s : State) (path q : string)
    (rest : list string) (info : FileInfo)
    (el : ref (list error)) (h : string -> IO (option error)) :
  stat_of (world s) path = Ok info ->
  IsDir info = false ->
  filepath_Abs path = inl (q +:+ ".sha512") ->
  let err := errorString ((q +:+ ".sha512") +:+ " is a checksum file.") in
  checkCmd_Run (path :: rest) s
    = checkCmd_Run rest
        (record_in ref_errorsChecking err (check_walk_start path s))
  /\ processPaths (path :: rest) el h s
     = processPaths rest el h (record_in el err (traced [SysStat path] s)).
Proof.
  intros Hstat Hdir Habs err. split.
  - cbn [checkCmd_Run]. io_run. rewrite Hstat, Hdir. unfold abs_result.
    rewrite Habs, Ext_of_sidecar. cbn [String.eqb]. io_run. reflexivity.
  - cbn [processPaths]. io_run. rewrite Hstat, Hdir. unfold abs_result.
    rewrite Habs, Ext_of_sidecar. io_run. reflexivity.
Qed.

(** X10.  When [filepath.Abs] fails on a directory argument, the check
    command records the error and returns: the arguments after it are not
    processed at all.  [processPaths] records the same error and goes on
    with the next argument. *)
Theorem abs_failure_on_directory (s : State) (path : string)
    (rest : list string) (info : FileInfo) (en : errno)
    (el : ref (list error)) (h : string -> IO (option error)) :
  stat_of (world s) path = Ok info ->
  IsDir info = true ->
  filepath_Abs path = inr en ->
  let err := SyscallError "getwd" en in
  checkCmd_Run (path :: rest) s
    = (tt, record_in ref_errorsChecking err (check_walk_start path s))
  /\ processPaths (path :: rest) el h s
     = processPaths rest el h (record_in el err (traced [SysStat path] s)).
Proof.
  intros Hstat Hdir Habs err. split.
  - cbn [checkCmd_Run]. io_run. rewrite Hstat, Hdir. unfold abs_result.
    rewrite Habs. io_run. reflexivity.
  - cbn [processPaths]. io_run. rewrite Hstat, Hdir. unfold abs_result.
    rewrite Habs. io_run. reflexivity.
Qed.

(** X11.  An error returned by the handler for a file met in a walk stops
    the walk there and is recorded once, by the caller of the walk (the
    walk function itself records only the errors the walk hands to it);
    nothing after the file is visited and the loop goes on with the next
    argument. *)
Theorem handler_error_recorded_once (s : State) (path root q : string)
    (rest : list string) (info finfo : FileInfo) (pre post : list visit)
    (e : error) (el : ref (list error)) (h : string -> IO (option error)) :
  stat_of (world s) path = Ok info ->
  IsDir info = true ->
  filepath_Abs path = inl root ->
  root_visits (world s) root = pre ++ Visit q (Some finfo) None :: post ->
  IsDir finfo = false ->
  let fn := processPaths_walkFn el h in
  let before := snd (run_visits fn pre (traced [SysStat path] s)) in
  fst (run_visits fn pre (traced [SysStat path] s)) = None ->
  fst (h q before) = Some e ->
  is_SkipDir e = false ->
  is_SkipAll e = false ->
  processPaths (path :: rest) el h s
    = processPaths rest el h (record_in el e (snd (h q before))).
Proof.
  intros Hstat Hdir Habs Hvs Hfile fn before Hnone Hh Hsd Hsa.
  rewrite (processPaths_dir path rest el h s info root Hstat Hdir Habs).
  assert (Hrun : run_visits fn (root_visits (world (traced [SysStat path] s)) root)
                   (traced [SysStat path] s)
                 = (Some e, snd (h q before))).
  { change (root_visits (world (traced [SysStat path] s)) root)
      with (root_visits (world s) root).
    rewrite Hvs, run_visits_app. fold fn. subst before.
    destruct (run_visits fn pre (traced [SysStat path] s)) as [r s1].
    cbn [fst snd] in *. subst r. cbn [run_visits v_path v_info v_err].
    rewrite run_bind.
    assert (Hfn : fn q (Some finfo) None s1 = h q s1).
    { unfold fn, processPaths_walkFn. rewrite Hfile. reflexivity. }
    rewrite Hfn.
    destruct (h q s1) as [r s2]. cbn [fst snd] in *. subst r. reflexivity. }
  fold fn. rewrite (Walk_run_visits fn root (traced [SysStat path] s)).
  - rewrite Hrun. reflexivity.
  - rewrite Hrun. cbn. intros [= ->]. discriminate.
  - rewrite Hrun. cbn. intros [= ->]. discriminate.
Qed.

(** X12.  [processPaths] on a list of arguments followed by another is
    [processPaths] on the first list, then on the second, from the state
    the first run left: no argument changes how a later one is treated
    other than through the state. *)
Theorem processPaths_app (a b : list string) (el : ref (list error))
    (h : string -> IO (option error)) (s : State) :
  processPaths (a ++ b) el h s
  = processPaths b el h (snd (processPaths a el h s)).
Proof.
  revert s. induction a as [|path a IH]; intros s; [reflexivity|].
  cbn [app processPaths]. rewrite !(run_bind (os_Stat path)).
  destruct (fst (os_Stat path s)) as [info|err].
  2:{ rewrite !run_bind. apply IH. }
  destruct (IsDir info).
  - destruct (abs_result path) as [root|err]; rewrite !run_bind; apply IH.
  - destruct (abs_result path) as [fileAbs|err]; [|rewrite !run_bind; apply IH].
    destruct (String.eqb _ _); rewrite !run_bind; apply IH.
Qed.

(** X13.  Arguments that cannot be stat-ed (paths that do not exist, for
    instance) cost one error each and nothing else: when no argument of a
    check run can be stat-ed, the run appends the stat errors to the error
    list in the order of the arguments, leaves the results as they were
    and makes no call but the stats. *)
Theorem missing_arguments_only_errors (args : list string) (s : State) :
  Forall (fun p => exists e, stat_of (world s) p = Err e) args ->
  let s' := snd (checkCmd_Run args s) in
  errorsCheckingChecksumFiles s'
    = errorsCheckingChecksumFiles s ++ stat_errors (world s) args
  /\ resultsCheckingChecksumFiles s' = resultsCheckingChecksumFiles s
  /\ trace (world s') = trace (world s) ++ map SysStat args.
Proof.
  intros Hargs. revert s Hargs.
  induction args as [|path rest IH]; intros s Hargs s'; subst s'.
  - cbn. rewrite !app_nil_r. auto.
  - apply Forall_cons in Hargs as [[e He] Hrest].
    cbn [checkCmd_Run]. io_run. rewrite He. io_run. cbn [append_to snd].
    change (store ref_errorsChecking
              (load ref_errorsChecking (traced [SysStat path] s) ++ [e])
              (traced [SysStat path] s))
      with (record_in ref_errorsChecking e (traced [SysStat path] s)).
    destruct (IH (record_in ref_errorsChecking e (traced [SysStat path] s)))
      as (IHe & IHr & IHt); [exact Hrest|].
    rewrite IHe, IHr, IHt. cbn [stat_errors flat_map map]. rewrite He.
    unfold stat_errors. cbn. rewrite <- !app_assoc. auto.
Qed.

End LoopSteps.

(** ** Samples *)

Example formatDuration_samples :
  formatDuration 0 = "0ms"
  /\ formatDuration 1499999 = "1ms"
  /\ formatDuration 1500000 = "2ms"
  /\ formatDuration 999499999 = "999ms"
  /\ formatDuration 999500000 = "1s"
  /\ formatDuration 59500000000 = "60s"
  /\ formatDuration 61000000000 = "1m1s"
  /\ formatDuration 3599500000000 = "60m0s"
  /\ formatDuration 3661000000000 = "1h1m1s"
  /\ formatDuration (-1500000) = "-2ms".
Proof. repeat split; vm_compute; reflexivity. Qed.

Example buildProgressFrame_samples :
  buildProgressFrame 0 = Some "[>         ]"
  /\ buildProgressFrame 3 = Some "[===>      ]"
  /\ buildProgressFrame 9 = Some "[=========>]"
  /\ buildProgressFrame 10 = Some "[==========]"
  /\ buildProgressFrame (-1) = None.
Proof. repeat split. Qed.

(** ** The progress bar *)

Lemma append_length a b : String.length (a +:+ b) = (String.length a + String.length b)%nat.
Proof. induction a as [|c a IH]; [reflexivity|]. cbn. rewrite <- IH. reflexivity. Qed.

Lemma count_char_app c a b :
  count_char c (a +:+ b) = (count_char c a + count_char c b)%nat.
Proof.
  induction a as [|x a IH]; [reflexivity|].
  change (String x a +:+ b) with (String x (a +:+ b)). cbn [count_char].
  rewrite IH. lia.
Qed.

Lemma repeat_string_length s n :
  String.length (repeat_string s n) = (n * String.length s)%nat.
Proof. induction n as [|n IH]; [reflexivity|]. cbn. rewrite append_length, IH. lia. Qed.

Lemma repeat_string_count c s n :
  count_char c (repeat_string s n) = (n * count_char c s)%nat.
Proof. induction n as [|n IH]; [reflexivity|]. cbn. rewrite count_char_app, IH. lia. Qed.

Lemma progress_frame_bounds (position : Z) :
  match buildProgressFrame position with
  | None => position < 0
  | Some frame =>
      0 <= position
      /\ String.length frame = 12%nat
      /\ count_char "=" frame = Z.to_nat (Z.min position progressBarWidth)
  end.
Proof.
  unfold buildProgressFrame, progressDoneBar, strings_Repeat, progressBarWidth.
  destruct (10 <=? position) eqn:Hfull.
  - cbn. rewrite Z.min_r by lia. repeat split; try reflexivity; lia.
  - destruct (position <? 0) eqn:Hneg; [lia|].
    assert (Htodo : (10 - position - 1 <? 0) = false) by lia.
    rewrite Htodo. rewrite !Z.min_l by lia.
    rewrite !append_length, !count_char_app, !repeat_string_length,
      !repeat_string_count.
    cbn [String.length count_char Ascii.eqb Bool.eqb].
    repeat split; lia.
Qed.

(** X14.  [buildProgressFrame] panics (in [strings.Repeat]) exactly on a
    negative position.  On any other position the frame is 12 bytes wide
    (the bar width plus the two brackets), begins with as many [=] as the
    position, 10 at most, and has the head [>] as long as the bar is not
    full. *)
Theorem progress_frame_shape (position : Z) :
  match buildProgressFrame position with
  | None => position < 0
  | Some frame =>
      0 <= position
      /\ String.length frame = 12%nat
      /\ count_char "=" frame = Z.to_nat (Z.min position progressBarWidth)
      /\ count_char ">" frame = (if position <? progressBarWidth then 1%nat else 0%nat)
      /\ count_char " " frame = Z.to_nat (progressBarWidth - 1 - Z.min position (progressBarWidth - 1))
  end.
Proof.
  unfold buildProgressFrame, progressDoneBar, strings_Repeat, progressBarWidth.
  destruct (10 <=? position) eqn:Hfull.
  - cbn. rewrite Z.min_r by lia. rewrite (proj2 (Z.ltb_ge _ _)) by lia.
    rewrite Z.min_r by lia. repeat split; try reflexivity; lia.
  - destruct (position <? 0) eqn:Hneg; [lia|].
    assert (Htodo : (10 - position - 1 <? 0) = false) by lia.
    rewrite Htodo. rewrite (proj2 (Z.ltb_lt position 10)) by lia.
    rewrite !Z.min_l by lia.
    rewrite !append_length, !count_char_app, !repeat_string_length,
      !repeat_string_count.
    cbn [String.length count_char Ascii.eqb Bool.eqb].
    repeat split; lia.
Qed.

Lemma spinner_position_mod n :
  spinner_position n = Z.of_nat n mod 11.
Proof.
  induction n as [|n IH]; [reflexivity|].
  cbn [spinner_position]. rewrite IH. unfold progressBarWidth.
  rewrite Z.rem_mod_nonneg.
  - rewrite Nat2Z.inj_succ. unfold Z.succ.
    rewrite Zplus_mod_idemp_l. reflexivity.
  - pose proof (Z.mod_pos_bound (Z.of_nat n) 11). lia.
  - lia.
Qed.

(** X15.  The loop of the spinner never makes [buildProgressFrame] panic:
    its position runs through 0, 1, ..., 10 and starts over, so the frame
    number [n] shows [n mod 11] signs [=]; every frame is 12 bytes wide,
    which is the width of the blanks [clearProgressLine] writes over
    it. *)
Theorem spinner_frames_cycle (prefix : string) (n : nat) :
  exists frame blank,
    spinner_output prefix n = Some (carriage_return +:+ prefix +:+ frame)
    /\ count_char "=" frame = (n mod 11)%nat
    /\ clearProgressLine prefix
       = Some (carriage_return +:+ prefix +:+ blank +:+ carriage_return +:+ prefix)
    /\ String.length blank = String.length frame
    /\ count_char " " blank = String.length blank.
Proof.
  unfold spinner_output.
  pose proof (progress_frame_bounds (spinner_position n)) as Hshape.
  pose proof (spinner_position_mod n) as Hpos.
  pose proof (Z.mod_pos_bound (Z.of_nat n) 11) as Hb.
  destruct (buildProgressFrame (spinner_position n)) as [frame|]; [|lia].
  destruct Hshape as (_ & Hlen & Heq).
  exists frame, (repeat_string " " 12). split; [reflexivity|].
  split.
  { rewrite Heq, Hpos. unfold progressBarWidth. rewrite Z.min_l by lia.
    change 11 with (Z.of_nat 11). rewrite <- Nat2Z.inj_mod. apply Nat2Z.id. }
  split; [reflexivity|]. split; [rewrite Hlen; reflexivity|reflexivity].
Qed.

(** ** formatDuration *)

Lemma Round_nearest d m :
  0 < m <= 1000000000 ->
  0 <= d < 2 ^ 62 ->
  Duration.Round d m = if d mod m + d mod m <? m then d - d mod m else d + m - d mod m.
Proof.
  intros Hm Hd. unfold Duration.Round, Duration.lessThanHalf, Duration.int64,
    Duration.maxDuration.
  change (2 ^ 62) with 4611686018427387904 in Hd.
  change (2 ^ 63) with 9223372036854775808.
  change (2 ^ 64) with 18446744073709551616.
  rewrite Z.rem_mod_nonneg by lia.
  pose proof (Z.mod_pos_bound d m ltac:(lia)) as Hr.
  destruct (m <=? 0) eqn:Em; [lia|].
  destruct (d <? 0) eqn:E0; [lia|].
  rewrite (Z.mod_small (d mod m)), (Z.mod_small m),
    (Z.mod_small (d mod m + d mod m)) by lia.
  rewrite (Z.mod_small (d - d mod m + 9223372036854775808)) by lia.
  rewrite (Z.mod_small (d + m - d mod m + 9223372036854775808)) by lia.
  destruct (d mod m + d mod m <? m); [lia|].
  destruct (d <? d + m - d mod m + 9223372036854775808 - 9223372036854775808) eqn:E;
    lia.
Qed.

Lemma Round_Millisecond d :
  0 <= d < 2 ^ 62 ->
  Duration.Round d Duration.Millisecond = 1000000 * ((d + 500000) / 1000000).
Proof.
  intros Hd. unfold Duration.Millisecond. rewrite Round_nearest by (lia || exact Hd).
  destruct (_ <? _) eqn:E; Z.to_euclidean_division_equations; lia.
Qed.

Lemma Round_Second d :
  0 <= d < 2 ^ 62 ->
  Duration.Round d Duration.Second = 1000000000 * ((d + 500000000) / 1000000000).
Proof.
  intros Hd. unfold Duration.Second. rewrite Round_nearest by (lia || exact Hd).
  destruct (_ <? _) eqn:E; Z.to_euclidean_division_equations; lia.
Qed.

(** The whole seconds [formatDuration] works with, from the duration
    rounded to the millisecond. *)
Lemma rounded_seconds ms :
  0 <= ms -> 1000000 * ms < 2 ^ 62 ->
  Duration.whole_Seconds (Duration.Round (1000000 * ms) Duration.Second)
  = (ms + 500) / 1000.
Proof.
  intros Hms Hb. rewrite Round_Second by lia. unfold Duration.whole_Seconds, Duration.Second.
  change (2 ^ 62) with 4611686018427387904 in Hb.
  rewrite Z.quot_div_nonneg by (Z.to_euclidean_division_equations; lia).
  Z.to_euclidean_division_equations. lia.
Qed.

Lemma formatDuration_closed d :
  0 <= d < 2 ^ 62 ->
  let ms := (d + 500000) / 1000000 in
  let sec := (ms + 500) / 1000 in
  formatDuration d =
    if ms <? 1000 then fmt_d ms +:+ "ms"
    else if ms <? 60000 then fmt_d sec +:+ "s"
    else if ms <? 3600000 then
      fmt_d (sec / 60) +:+ "m" +:+ fmt_d (sec mod 60) +:+ "s"
    else
      fmt_d (sec / 3600) +:+ "h" +:+ fmt_d ((sec mod 3600) / 60) +:+ "m"
      +:+ fmt_d (sec mod 60) +:+ "s".
Proof.
  intros Hd ms sec. unfold formatDuration. rewrite Round_Millisecond by exact Hd.
  fold ms.
  assert (Hms : 0 <= ms /\ 1000000 * ms < 2 ^ 62).
  { subst ms. change (2 ^ 62) with 4611686018427387904 in *.
    Z.to_euclidean_division_equations. lia. }
  destruct Hms as [Hms Hb].
  assert (Hsec : 0 <= sec) by (subst sec; Z.to_euclidean_division_equations; lia).
  rewrite (rounded_seconds ms Hms Hb). fold sec.
  unfold Duration.Hour, Duration.Minute, Duration.Second, Duration.Milliseconds,
    Duration.Millisecond.
  rewrite !Z.rem_mod_nonneg, !Z.quot_div_nonneg
    by (try lia; Z.to_euclidean_division_equations; lia).
  replace (1000000 * ms / 1000000) with ms
    by (Z.to_euclidean_division_equations; lia).
  destruct (ms <? 1000) eqn:E1, (ms <? 60000) eqn:E2, (ms <? 3600000) eqn:E3;
    try lia;
    repeat match goal with
           | |- context [?a <=? ?b] =>
               let E := fresh in destruct (a <=? b) eqn:E; try lia
           end;
    reflexivity.
Qed.

(** X16.  [formatDuration] chooses the unit from the duration rounded to
    the millisecond and prints the seconds rounded once more: for a
    duration of [d] nanoseconds with [ms] its milliseconds rounded half
    up and [sec] the seconds of [ms] rounded half up, the text is [ms]
    below one second, [sec] seconds below one minute, minutes and seconds
    below one hour, and hours, minutes and seconds from there on.  So the
    seconds printed alone lie between 1 and 60, the minutes of the
    two-part form between 1 and 60, and the parts that follow a larger
    unit between 0 and 59. *)
Theorem formatDuration_units (d : Z) :
  0 <= d < 2 ^ 62 ->
  let ms := (d + 500000) / 1000000 in
  let sec := (ms + 500) / 1000 in
  formatDuration d
  = (if ms <? 1000 then fmt_d ms +:+ "ms"
     else if ms <? 60000 then fmt_d sec +:+ "s"
     else if ms <? 3600000 then
       fmt_d (sec / 60) +:+ "m" +:+ fmt_d (sec mod 60) +:+ "s"
     else
       fmt_d (sec / 3600) +:+ "h" +:+ fmt_d ((sec mod 3600) / 60) +:+ "m"
       +:+ fmt_d (sec mod 60) +:+ "s")
  /\ (1000 <= ms < 60000 -> 1 <= sec <= 60)
  /\ (60000 <= ms < 3600000 -> 1 <= sec / 60 <= 60)
  /\ (3600000 <= ms -> 1 <= sec / 3600)
  /\ 0 <= sec mod 60 <= 59
  /\ 0 <= (sec mod 3600) / 60 <= 59
  /\ Z.abs (d - 1000000 * ms) <= 500000
  /\ Z.abs (1000 * sec - ms) <= 500.
Proof.
  intros Hd ms sec. split; [apply formatDuration_closed; exact Hd|].
  subst sec ms. change (2 ^ 62) with 4611686018427387904 in Hd.
  repeat match goal with |- _ /\ _ => split end;
    lazymatch goal with |- _ -> _ => intro | _ => idtac end;
    Z.to_euclidean_division_equations; lia.
Qed.

(** X17.  The unit is chosen before the seconds are rounded: a duration
    from 59.5 s up to 59.9995 s is printed [60s], not [1m0s], and one from
    59 min 59.5 s up to 59 min 59.9995 s is printed [60m0s], not
    [1h0m0s]. *)
Theorem formatDuration_sixty (x : Z) :
  0 <= x < 499500000 ->
  formatDuration (59500000000 + x) = "60s"
  /\ formatDuration (3599500000000 + x) = "60m0s".
Proof.
  intros Hx. split.
  - rewrite formatDuration_closed by (change (2 ^ 62) with 4611686018427387904; lia).
    cbv zeta.
    assert (Hms : 59500 <= (59500000000 + x + 500000) / 1000000 < 60000)
      by (Z.to_euclidean_division_equations; lia).
    set (ms := (59500000000 + x + 500000) / 1000000) in *.
    assert (Hsec : (ms + 500) / 1000 = 60)
      by (Z.to_euclidean_division_equations; lia).
    rewrite Hsec.
    destruct (ms <? 1000) eqn:E1; [lia|]. destruct (ms <? 60000) eqn:E2; [|lia].
    reflexivity.
  - rewrite formatDuration_closed by (change (2 ^ 62) with 4611686018427387904; lia).
    cbv zeta.
    assert (Hms : 3599500 <= (3599500000000 + x + 500000) / 1000000 < 3600000)
      by (Z.to_euclidean_division_equations; lia).
    set (ms := (3599500000000 + x + 500000) / 1000000) in *.
    assert (Hsec : (ms + 500) / 1000 = 3600)
      by (Z.to_euclidean_division_equations; lia).
    rewrite Hsec.
    destruct (ms <? 1000) eqn:E1; [lia|]. destruct (ms <? 60000) eqn:E2; [lia|].
    destruct (ms <? 3600000) eqn:E3; [|lia].
    reflexivity.
Qed.

(** ** The arguments *)

Section ArgumentFacts.
Context `{Shell} `{GoRuntime}.

Lemma expandArgs_from_acc args : forall expanded errs hadGlob,
  expandArgs_from args expanded errs hadGlob
  = let '(p, e, g) := expandArgs args in
    (expanded ++ p, errs ++ e, hadGlob || g).
Proof.
  unfold expandArgs.
  induction args as [|arg rest IH]; intros expanded errs hadGlob.
  - cbn. rewrite !app_nil_r, orb_false_r. reflexivity.
  - cbn [expandArgs_from]. destruct (hasGlobMeta arg).
    + destruct (filepath_Glob arg) as [matches|err].
      * destruct (length matches =? 0)%nat.
        -- rewrite (IH expanded (errs ++ [_]) true), (IH [] ([] ++ [_]) true).
           destruct (expandArgs_from rest [] [] false) as [[p e] g].
           cbn. rewrite <- app_assoc, orb_true_r. reflexivity.
        -- rewrite (IH (expanded ++ matches) errs true), (IH ([] ++ matches) [] true).
           destruct (expandArgs_from rest [] [] false) as [[p e] g].
           cbn. rewrite <- app_assoc, orb_true_r. reflexivity.
      * rewrite (IH expanded (errs ++ [err]) true), (IH [] ([] ++ [err]) true).
        destruct (expandArgs_from rest [] [] false) as [[p e] g].
        cbn. rewrite <- app_assoc, orb_true_r. reflexivity.
    + rewrite (IH (expanded ++ [arg]) errs hadGlob), (IH ([] ++ [arg]) [] false).
      destruct (expandArgs_from rest [] [] false) as [[p e] g].
      cbn. rewrite <- app_assoc. reflexivity.
Qed.

Lemma expandArgs_from_app a : forall b expanded errs hadGlob,
  expandArgs_from (a ++ b) expanded errs hadGlob
  = let '(p, e, g) := expandArgs_from a expanded errs hadGlob in
    expandArgs_from b p e g.
Proof.
  induction a as [|arg a IH]; intros b expanded errs hadGlob; [reflexivity|].
  cbn [app expandArgs_from]. destruct (hasGlobMeta arg).
  - destruct (filepath_Glob arg) as [matches|err]; [|apply IH].
    destruct (length matches =? 0)%nat; apply IH.
  - apply IH.
Qed.

(** X18.  Arguments with none of the characters [*], [?], [[] go through
    [expandArgs] as they are, in order, with no error and [hadGlob]
    false, whatever the file system holds: [filepath.Glob] is not asked. *)
Theorem expandArgs_plain (args : list string) :
  forallb (fun arg => negb (hasGlobMeta arg)) args = true ->
  expandArgs args = (args, [], false).
Proof.
  unfold expandArgs. intros Hargs.
  enough (Hgen : forall expanded,
             expandArgs_from args expanded [] false = (expanded ++ args, [], false))
    by apply (Hgen []).
  induction args as [|arg rest IH]; intros expanded.
  - cbn. rewrite app_nil_r. reflexivity.
  - cbn in Hargs. apply andb_prop in Hargs as [Harg Hrest].
    apply negb_true_iff in Harg. cbn [expandArgs_from]. rewrite Harg.
    rewrite (IH Hrest), <- app_assoc. reflexivity.
Qed.

Lemma expandArgs_concat (a b : list string) :
  expandArgs (a ++ b)
  = let '(pa, ea, ga) := expandArgs a in
    let '(pb, eb, gb) := expandArgs b in
    (pa ++ pb, ea ++ eb, ga || gb).
Proof.
  unfold expandArgs at 1. rewrite expandArgs_from_app.
  fold (expandArgs a). destruct (expandArgs a) as [[pa ea] ga].
  rewrite expandArgs_from_acc. reflexivity.
Qed.

(** X19.  [expandArgs] treats each argument on its own.  The result for
    a list followed by another is the paths of the first then those of
    the second, likewise the errors, and [hadGlob] if either had a
    pattern.  Between two lists, a pattern that [filepath.Glob] refuses
    adds that error and no path, a pattern that matches nothing adds the
    error [no matches for] followed by the quoted pattern and no path, a
    pattern that matches adds its matches and no error, and [hadGlob] is
    true in the three cases; an argument that is no pattern adds itself
    and no error.  What the lists before and after contribute is the
    same in every case. *)
Theorem expandArgs_app (a b : list string) (arg : string) :
  let '(pa, ea, ga) := expandArgs a in
  let '(pb, eb, gb) := expandArgs b in
  expandArgs (a ++ b) = (pa ++ pb, ea ++ eb, ga || gb)
  /\ (hasGlobMeta arg = true ->
      expandArgs (a ++ arg :: b)
      = match filepath_Glob arg with
        | Err err => (pa ++ pb, ea ++ err :: eb, true)
        | Ok [] =>
            (pa ++ pb,
             ea ++ errorString ("no matches for " +:+ strconv_Quote arg) :: eb,
             true)
        | Ok matches => (pa ++ matches ++ pb, ea ++ eb, true)
        end)
  /\ (hasGlobMeta arg = false ->
      expandArgs (a ++ arg :: b) = (pa ++ arg :: pb, ea ++ eb, ga || gb)).
Proof.
  pose proof (expandArgs_concat a b) as Hab.
  pose proof (expandArgs_concat a (arg :: b)) as Hcons.
  pose proof (expandArgs_from_acc b) as Hacc.
  change (expandArgs (arg :: b)) with (expandArgs_from (arg :: b) [] [] false) in Hcons.
  cbn [expandArgs_from] in Hcons.
  destruct (expandArgs a) as [[pa ea] ga].
  destruct (expandArgs b) as [[pb eb] gb].
  split; [exact Hab|]. split; intros Hmeta; rewrite Hmeta in Hcons.
  - destruct (filepath_Glob arg) as [[|m ms]|err];
      cbn [length Nat.eqb] in Hcons; rewrite Hacc in Hcons;
      rewrite Hcons; cbn [app orb]; rewrite ?orb_true_r; reflexivity.
  - rewrite Hacc in Hcons. rewrite Hcons. reflexivity.
Qed.

Lemma scan_from_filter texts : forall paths,
  scan_from texts paths
  = paths ++ List.filter kept_line (map strings_TrimSpace texts).
Proof.
  induction texts as [|text rest IH]; intros paths.
  - cbn. rewrite app_nil_r. reflexivity.
  - cbn [scan_from map List.filter]. unfold kept_line at 1.
    destruct (String.eqb (strings_TrimSpace text) "") eqn:Eempty.
    + cbn [negb andb]. apply IH.
    + destruct (strings_HasSuffix (strings_TrimSpace text) ".sha512") eqn:Eside.
      * cbn [negb andb]. apply IH.
      * cbn [negb andb]. rewrite IH, <- app_assoc. reflexivity.
Qed.

(** X20.  The paths read from standard input are the trimmed lines that
    are neither empty nor sidecar names, in the order of the lines; so no
    path read this way is empty, none ends in [.sha512], and none has the
    extension [.sha512] the handlers and the loops test for.  Nothing is
    read from a terminal. *)
Theorem stdin_paths_filtered (stdin : Stdin) :
  let '(paths, err) := readPathsFromStdin stdin in
  (isStdinTTY stdin = true -> paths = [] /\ err = None)
  /\ (isStdinTTY stdin = false ->
      paths = List.filter kept_line (map strings_TrimSpace (scanned stdin))
      /\ err = scanner_Err stdin)
  /\ Forall (fun p => p <> "" /\ strings_HasSuffix p ".sha512" = false
                      /\ String.eqb (filepath_Ext p) ".sha512" = false) paths.
Proof.
  unfold readPathsFromStdin. destruct (isStdinTTY stdin).
  - split; [auto|]. split; [discriminate|constructor].
  - split; [discriminate|]. rewrite scan_from_filter. cbn [app].
    split; [auto|].
    apply List.Forall_forall. intros p Hp.
    apply List.filter_In in Hp. destruct Hp as [_ Hp].
    unfold kept_line in Hp. apply andb_prop in Hp as [Hne Hsuf].
    apply negb_true_iff in Hne, Hsuf. apply String.eqb_neq in Hne.
    rewrite Ext_eqb_HasSuffix. auto.
Qed.

(** X21.  On a terminal [gatherPaths] is [expandArgs]: standard input is
    not read, even when there is no argument at all.  When standard input
    is not a terminal, its paths come after the expanded arguments,
    [hadGlob] is set as soon as there is one, and the error of the scanner
    comes after the errors of the expansion. *)
Theorem gatherPaths_stdin (args : list string) (stdin : Stdin) :
  let '(paths, errs, hadGlob) := expandArgs args in
  let '(stdinPaths, readErr) := readPathsFromStdin stdin in
  (isStdinTTY stdin = true -> gatherPaths args stdin = (paths, errs, hadGlob))
  /\ (isStdinTTY stdin = false ->
      gatherPaths args stdin
      = (paths ++ stdinPaths,
         errs ++ match readErr with Some e => [e] | None => [] end,
         hadGlob || negb (length stdinPaths =? 0)%nat)).
Proof.
  unfold gatherPaths, readPathsFromStdin.
  destruct (expandArgs args) as [[paths errs] hadGlob].
  destruct (isStdinTTY stdin).
  - split; [|discriminate]. intros _.
    destruct (length args =? 0)%nat; reflexivity.
  - split; [discriminate|]. intros _. rewrite orb_true_r.
    destruct (scan_from (scanned stdin) []) as [|p ps]; cbn.
    + rewrite app_nil_r, orb_false_r.
      destruct (scanner_Err stdin); [reflexivity|]. rewrite app_nil_r. reflexivity.
    + rewrite orb_true_r.
      destruct (scanner_Err stdin); [reflexivity|]. rewrite app_nil_r. reflexivity.
Qed.

End ArgumentFacts.

(** ** The summary *)

Example printResults_sample :
  printResultsCheckingChecksumFiles
    [VerificationResult "/d/a" Match None;
     VerificationResult "/d/b" CheckingFailed (Some (PathError "open" "/d/b" ENOENT));
     VerificationResult "/d/c" NotFound None]
  = ["Results: 3 files processed";
     "✅ : 1 checksum files match";
     "👻 : 1 files without a checksum file";
     "- /d/c";
     "❌ : 1 checksum files failed to check";
     "- /d/b | Error: open /d/b: no such file or directory"].
Proof. vm_compute. reflexivity. Qed.

Lemma classify_from_spec results : forall b,
  classify_from results b
  = Buckets (matchedChecksumFilesQuantity b + length (with_status Match results))
            (notMatchedResults b ++ with_status NotMatch results)
            (notExistingResults b ++ with_status NotFound results)
            (lockedResults b ++ with_status LockedVerification results)
            (failedResults b ++ with_status CheckingFailed results).
Proof.
  induction results as [|r rest IH]; intros [m nm ne l f].
  - cbn. rewrite !app_nil_r, Nat.add_0_r. reflexivity.
  - cbn [classify_from]. rewrite IH. unfold with_status. cbn [List.filter].
    destruct (Status r); cbn; rewrite <- ?app_assoc; f_equal; lia.
Qed.

Lemma with_status_partition results :
  (length (with_status Match results) + length (with_status NotMatch results)
   + length (with_status NotFound results)
   + length (with_status LockedVerification results)
   + length (with_status CheckingFailed results))%nat
  = length results.
Proof.
  induction results as [|r rest IH]; [reflexivity|].
  unfold with_status in *. cbn [List.filter].
  destruct (Status r); cbn [length]; lia.
Qed.

(** X22.  The summary sorts every result into one bucket and loses none:
    each of the four lists holds the results of its status in the order
    they came, the matches are counted, and the count of matches and the
    sizes of the lists add up to the number of results.  Nothing is
    printed for no result; otherwise one line for the total, one for the
    matches if there are any, and for each other bucket that is not empty
    one line and then one line for each of its results. *)
Theorem summary_partitions_results (results : list ChecksumFileVerificationResult) :
  let b := classify results in
  let bucket (rs : list ChecksumFileVerificationResult) :=
    (if (0 <? length rs)%nat then S (length rs) else O) in
  matchedChecksumFilesQuantity b = length (with_status Match results)
  /\ notMatchedResults b = with_status NotMatch results
  /\ notExistingResults b = with_status NotFound results
  /\ lockedResults b = with_status LockedVerification results
  /\ failedResults b = with_status CheckingFailed results
  /\ (matchedChecksumFilesQuantity b + length (notMatchedResults b)
      + length (notExistingResults b) + length (lockedResults b)
      + length (failedResults b))%nat = length results
  /\ length (printResultsCheckingChecksumFiles results)
     = ((if (0 <? length results)%nat then 1 else 0)
        + (if (0 <? matchedChecksumFilesQuantity b)%nat then 1 else 0)
        + bucket (notMatchedResults b) + bucket (notExistingResults b)
        + bucket (lockedResults b) + bucket (failedResults b))%nat
  /\ (results = [] -> printResultsCheckingChecksumFiles results = []).
Proof.
  intros b bucket.
  assert (Hb : b = Buckets (length (with_status Match results))
                     (with_status NotMatch results) (with_status NotFound results)
                     (with_status LockedVerification results)
                     (with_status CheckingFailed results)).
  { subst b. unfold classify. rewrite classify_from_spec. reflexivity. }
  split; [rewrite Hb; reflexivity|]. split; [rewrite Hb; reflexivity|].
  split; [rewrite Hb; reflexivity|]. split; [rewrite Hb; reflexivity|].
  split; [rewrite Hb; reflexivity|].
  split; [rewrite Hb; cbn; apply with_status_partition|].
  split.
  - unfold printResultsCheckingChecksumFiles. fold b.
    rewrite !length_app. unfold bucket_lines, bucket.
    repeat match goal with
           | |- context [(0 <? ?n)%nat] => destruct (0 <? n)%nat
           end; cbn [length]; rewrite ?length_map; lia.
  - intros ->. reflexivity.
Qed.

(** ** Witnesses of the properties above *)

Lemma check_open_failure_witness :
  let s := initial w_orphan in
  let p := "/data/gone.txt" in
  let err := PathError "open" p ENOENT in
  open_of (world s) p = Err err
  /\ os_IsPermission err = false
  /\ checkChecksumFile (H := plain_runtime) p s
     = (VerificationResult p CheckingFailed (Some err), traced [SysOpen p] s).
Proof.
  intros s p err.
  assert (Hopen : open_of (world s) p = Err err) by (vm_compute; reflexivity).
  split; [exact Hopen|]. split; [reflexivity|].
  exact (check_open_failure (H := plain_runtime) s p err Hopen eq_refl).
Defined.

Lemma check_releases_handle_witness :
  let s := initial w_upper in
  let p := "/data/hello.txt" in
  let file := {| f_name := p; f_inode := regular hello |} in
  open_of (world s) p = Ok file
  /\ exists cs,
       trace (world (snd (checkChecksumFile (H := plain_runtime) p s)))
       = trace (world s) ++ [SysOpen p] ++ cs ++ [SysClose p]
       /\ Forall (fun c => c = SysStat (p +:+ ".sha512") \/ c = SysRead p
                           \/ c = SysReadFile (p +:+ ".sha512")) cs.
Proof.
  intros s p file.
  assert (Hopen : open_of (world s) p = Ok file) by (vm_compute; reflexivity).
  split; [exact Hopen|].
  exact (check_releases_handle (H := plain_runtime) s p file Hopen).
Defined.

Lemma check_match_iff_lower_witness :
  let s := initial w_upper in
  let p := "/data/hello.txt" in
  let file := {| f_name := p; f_inode := regular hello |} in
  let content := bytes_of_string (hello_digest_upper +:+ newline) in
  open_of (world s) p = Ok file
  /\ read_of file = Ok hello
  /\ stat_of (world s) (p +:+ ".sha512") = Ok fileInfo
  /\ readfile_of (world s) (p +:+ ".sha512") = Ok content
  /\ all_chars is_ascii (string_of_bytes content) = true
  /\ (Status (fst (checkChecksumFile (H := plain_runtime) p s)) = Match
      <-> string_lower (strings_TrimSpace (H := plain_runtime) (string_of_bytes content))
          = sidecar_text hello).
Proof.
  intros s p file content.
  assert (Hopen : open_of (world s) p = Ok file) by (vm_compute; reflexivity).
  assert (Hread : read_of file = Ok hello) by reflexivity.
  assert (Hstat : stat_of (world s) (p +:+ ".sha512") = Ok fileInfo)
    by (vm_compute; reflexivity).
  assert (Hside : readfile_of (world s) (p +:+ ".sha512") = Ok content)
    by (vm_compute; reflexivity).
  assert (Hascii : all_chars is_ascii (string_of_bytes content) = true)
    by (vm_compute; reflexivity).
  repeat (split; [assumption|]).
  exact (proj1 (check_match_iff_lower (H := plain_runtime) s p file hello content
                  fileInfo Hopen Hread Hstat Hside Hascii)).
Defined.

Lemma check_error_is_failing_call_witness :
  let s := initial w_locked in
  let p := "/data/locked.txt" in
  let e := PathError "open" p EACCES in
  Error (fst (checkChecksumFile (H := plain_runtime) p s)) = Some e
  /\ (open_of (world s) p = Err e
      \/ stat_of (world s) (p +:+ ".sha512") = Err e
      \/ (exists file, open_of (world s) p = Ok file /\ read_of file = Err e)
      \/ readfile_of (world s) (p +:+ ".sha512") = Err e).
Proof.
  intros s p e.
  assert (Herr : Error (fst (checkChecksumFile (H := plain_runtime) p s)) = Some e)
    by (vm_compute; reflexivity).
  split; [exact Herr|].
  exact (check_error_is_failing_call (H := plain_runtime) s p e Herr).
Defined.

Lemma handler_skips_sidecars_witness :
  let s := initial w_mixed_tree in
  filepath_Abs (GoRuntime := plain_runtime) "/d/ok.txt.sha512"
    = inl ("/d/ok.txt" +:+ ".sha512")
  /\ handleChecksumFileVerification (H := plain_runtime) "/d/ok.txt.sha512"
       ref_resultsChecking s = (None, s).
Proof.
  intros s. split; [reflexivity|].
  exact (handler_skips_sidecars (H := plain_runtime) "/d/ok.txt.sha512" "/d/ok.txt" s
           eq_refl).
Defined.

Lemma sidecar_argument_refused_witness :
  let s := initial w_upper in
  let path := "/data/hello.txt.sha512" in
  let err := errorString "/data/hello.txt.sha512 is a checksum file." in
  stat_of (world s) path = Ok fileInfo
  /\ filepath_Abs (GoRuntime := plain_runtime) path = inl ("/data/hello.txt" +:+ ".sha512")
  /\ checkCmd_Run (H := plain_runtime) [path] s
     = checkCmd_Run (H := plain_runtime) []
         (record_in ref_errorsChecking err (check_walk_start path s)).
Proof.
  intros s path err.
  assert (Hstat : stat_of (world s) path = Ok fileInfo) by (vm_compute; reflexivity).
  split; [exact Hstat|]. split; [reflexivity|].
  exact (proj1 (sidecar_argument_refused (H := plain_runtime) s path "/data/hello.txt"
                  [] fileInfo ref_errorsCreating failing_handler
                  Hstat eq_refl eq_refl)).
Defined.

Lemma abs_failure_on_directory_witness :
  let s := initial w_relative in
  let err := SyscallError "getwd" EACCES in
  stat_of (world s) "photos" = Ok dirInfo
  /\ filepath_Abs (GoRuntime := lost_cwd_runtime) "photos" = inr EACCES
  /\ checkCmd_Run (H := lost_cwd_runtime) ["photos"; "/data/hello.txt"] s
     = (tt, record_in ref_errorsChecking err (check_walk_start "photos" s))
  /\ processPaths (H := lost_cwd_runtime) ["photos"; "/data/hello.txt"]
       ref_errorsCreating failing_handler s
     = processPaths (H := lost_cwd_runtime) ["/data/hello.txt"]
         ref_errorsCreating failing_handler
         (record_in ref_errorsCreating err (traced [SysStat "photos"] s)).
Proof.
  intros s err.
  assert (Hstat : stat_of (world s) "photos" = Ok dirInfo) by (vm_compute; reflexivity).
  split; [exact Hstat|]. split; [reflexivity|].
  exact (abs_failure_on_directory (H := lost_cwd_runtime) s "photos"
           ["/data/hello.txt"] dirInfo EACCES ref_errorsCreating failing_handler
           Hstat eq_refl eq_refl).
Defined.

Lemma handler_error_recorded_once_witness :
  let s := initial w_mixed_tree in
  let e := errorString "cannot handle /d/locked.txt" in
  let pre := [Visit "/d" (Some dirInfo) None] in
  let post := [Visit "/d/ok.txt" (Some fileInfo) None;
               Visit "/d/ok.txt.sha512" (Some fileInfo) None] in
  let fn := processPaths_walkFn ref_errorsCreating failing_handler in
  let before := snd (run_visits fn pre (traced [SysStat "/d"] s)) in
  stat_of (world s) "/d" = Ok dirInfo
  /\ root_visits (world s) "/d"
     = pre ++ Visit "/d/locked.txt" (Some fileInfo) None :: post
  /\ fst (run_visits fn pre (traced [SysStat "/d"] s)) = None
  /\ fst (failing_handler "/d/locked.txt" before) = Some e
  /\ processPaths (H := plain_runtime) ["/d"] ref_errorsCreating failing_handler s
     = processPaths (H := plain_runtime) [] ref_errorsCreating failing_handler
         (record_in ref_errorsCreating e
            (snd (failing_handler "/d/locked.txt" before))).
Proof.
  intros s e pre post fn before.
  assert (Hstat : stat_of (world s) "/d" = Ok dirInfo) by (vm_compute; reflexivity).
  assert (Hvs : root_visits (world s) "/d"
                = pre ++ Visit "/d/locked.txt" (Some fileInfo) None :: post)
    by (vm_compute; reflexivity).
  assert (Hnone : fst (run_visits fn pre (traced [SysStat "/d"] s)) = None)
    by reflexivity.
  assert (Hh : fst (failing_handler "/d/locked.txt" before) = Some e) by reflexivity.
  repeat (split; [assumption|]).
  exact (handler_error_recorded_once (H := plain_runtime) s "/d" "/d" "/d/locked.txt"
           [] dirInfo fileInfo pre post e ref_errorsCreating failing_handler
           Hstat eq_refl eq_refl Hvs eq_refl Hnone Hh eq_refl eq_refl).
Defined.

Lemma missing_arguments_only_errors_witness :
  let s := initial w_plain in
  let args := ["/nowhere"; "/data/nothing.txt"] in
  Forall (fun p => exists e, stat_of (world s) p = Err e) args
  /\ errorsCheckingChecksumFiles (snd (checkCmd_Run (H := plain_runtime) args s))
     = errorsCheckingChecksumFiles s ++ stat_errors (world s) args.
Proof.
  intros s args.
  assert (Hargs : Forall (fun p => exists e, stat_of (world s) p = Err e) args).
  { repeat (constructor; [eexists; vm_compute; reflexivity|]). constructor. }
  split; [exact Hargs|].
  exact (proj1 (missing_arguments_only_errors (H := plain_runtime) args s Hargs)).
Defined.

Lemma check_run_results_sound_witness :
  let s := initial w_mixed_tree in
  Forall (sound_result) (resultsCheckingChecksumFiles s)
  /\ Forall (sound_result)
       (resultsCheckingChecksumFiles (snd (checkCmd_Run (H := plain_runtime) ["/d"] s))).
Proof.
  intros s.
  assert (Hs : Forall sound_result (resultsCheckingChecksumFiles s)) by constructor.
  split; [exact Hs|].
  exact (check_run_results_sound (H := plain_runtime) ["/d"] s Hs).
Defined.

Lemma formatDuration_units_witness :
  0 <= 3661000000000 < 2 ^ 62
  /\ formatDuration 3661000000000 = "1h1m1s".
Proof.
  assert (Hd : 0 <= 3661000000000 < 2 ^ 62) by (split; [lia|reflexivity]).
  split; [exact Hd|].
  exact (eq_trans (proj1 (formatDuration_units 3661000000000 Hd)) eq_refl).
Defined.

Lemma formatDuration_sixty_witness :
  0 <= 250000000 < 499500000
  /\ formatDuration (59500000000 + 250000000) = "60s"
  /\ formatDuration (3599500000000 + 250000000) = "60m0s".
Proof.
  assert (Hx : 0 <= 250000000 < 499500000) by lia.
  split; [exact Hx|].
  exact (formatDuration_sixty 250000000 Hx).
Defined.

Lemma expandArgs_plain_witness :
  let args := ["/mnt/disk"; "budget 2024.pdf"] in
  forallb (fun arg => negb (hasGlobMeta arg)) args = true
  /\ expandArgs (H := empty_shell) args = (args, [], false).
Proof.
  intros args.
  assert (Hargs : forallb (fun arg => negb (hasGlobMeta arg)) args = true)
    by reflexivity.
  split; [exact Hargs|].
  exact (expandArgs_plain (H := empty_shell) args Hargs).
Defined.

Lemma expandArgs_app_witness :
  let bad := errorString "syntax error in pattern" in
  let none := errorString ("no matches for " +:+ strconv_Quote (Shell := two_files_shell) "*.log") in
  hasGlobMeta "[" = true
  /\ hasGlobMeta "*.log" = true
  /\ expandArgs (H := two_files_shell) ["x"; "["; "*.txt"; "y"]
     = (["x"; "a.txt"; "b.txt"; "y"], [bad], true)
  /\ expandArgs (H := two_files_shell) ["x"; "*.txt"; "*.log"; "y"]
     = (["x"; "a.txt"; "b.txt"; "y"], [none], true).
Proof.
  intros bad none.
  assert (Hbad : hasGlobMeta "[" = true) by reflexivity.
  assert (Hlog : hasGlobMeta "*.log" = true) by reflexivity.
  repeat (split; [assumption|]).
  pose proof (expandArgs_app (H := two_files_shell) ["x"] ["*.txt"; "y"] "[") as T1.
  pose proof (expandArgs_app (H := two_files_shell) ["x"; "*.txt"] ["y"] "*.log") as T2.
  vm_compute in T1, T2.
  destruct T1 as (_ & T1 & _). destruct T2 as (_ & T2 & _).
  split; [exact (T1 eq_refl)|exact (T2 eq_refl)].
Defined.
